(** * colossus-pkgcenter: the subprocess output pipeline

    A shallow embedding of the core of [colossus_pkgcenter.cpp]: the
    command runners, the ANSI/OSC stripper, the [yay -Ss] parser and the
    search routine, followed by the properties proved about them. *)

From Equations Require Import Equations.
From Equations.Prop Require Import Logic.
From Stdlib Require Import Ascii String List Arith Bool Lia ZArith DecimalString.
Import ListNotations.

#[global] Arguments Ascii.eqb : simpl never.

(** ** Strings

    A [std::string] is a sequence of [char]; positions are counted from 0
    and [std::string::npos] is rendered as [None]. *)

Definition std_string := list ascii.

(** A string literal of the source. *)
Definition lit (s : string) : std_string := list_ascii_of_string s.

(** [static_cast<unsigned char>(c)], as a number. *)
Definition uchar (c : ascii) : nat := nat_of_ascii c.

(** [s[i]] for [i < s.size()]. *)
Definition char_at (s : std_string) (i : nat) : ascii := nth i s zero.

Definition ESC : ascii := "027"%char.
Definition BEL : ascii := "007"%char.
Definition NL : ascii := "010"%char.

(** ** Control-sequence stripper ([strip_ansi_and_osc]) *)

(** The final byte of a CSI sequence: [d >= '@' && d <= '~']. *)
Definition is_csi_final (d : ascii) : bool :=
  (uchar "@" <=? uchar d) && (uchar d <=? uchar "~").

(** The inner loop of the [ESC '['] branch: from [j], the position just
    after the first final byte, or [input.size()]. *)
Equations? csi_end (input : std_string) (j : nat) : nat
  by wf (length input - j) lt :=
  csi_end input j with lt_dec j (length input) => {
    | left _ =>
        if is_csi_final (char_at input j) then j + 1
        else csi_end input (j + 1);
    | right _ => j }.
Proof. lia. Qed.

(** The inner loop of the [ESC ']'] branch: from [j], the position just
    after a BEL or after [ESC '\'], or [input.size()]. *)
Equations? osc_end (input : std_string) (j : nat) : nat
  by wf (length input - j) lt :=
  osc_end input j with lt_dec j (length input) => {
    | left _ =>
        if Ascii.eqb (char_at input j) BEL then j + 1
        else if Ascii.eqb (char_at input j) ESC
                && (j + 1 <? length input)
                && Ascii.eqb (char_at input (j + 1)) "\"
        then j + 2
        else osc_end input (j + 1);
    | right _ => j }.
Proof. lia. Qed.

Lemma csi_end_ge (input : std_string) (j : nat) : j <= csi_end input j.
Proof.
  funelim (csi_end input j); [|lia].
  destruct (is_csi_final _); lia.
Qed.

Lemma osc_end_ge (input : std_string) (j : nat) : j <= osc_end input j.
Proof.
  funelim (osc_end input j); [|lia].
  destruct (Ascii.eqb _ BEL); [lia|].
  destruct (_ && _); lia.
Qed.

(** The scanning loop of [strip_ansi_and_osc]: [i] is the read position
    and [out] the text produced so far. *)
Equations? strip_loop (input : std_string) (i : nat) (out : std_string)
  : std_string by wf (length input - i) lt :=
  strip_loop input i out with lt_dec i (length input) => {
    | right _ => out;
    | left _ with Ascii.eqb (char_at input i) ESC => {
        | false => strip_loop input (i + 1) (out ++ [char_at input i]);
        | true with le_dec (length input) (i + 1) => {
            | left _ => strip_loop input (i + 1) out;
            | right _ with Ascii.eqb (char_at input (i + 1)) "[" => {
                | true => strip_loop input (csi_end input (i + 2)) out;
                | false with Ascii.eqb (char_at input (i + 1)) "]" => {
                    | true => strip_loop input (osc_end input (i + 2)) out;
                    | false => strip_loop input (i + 1) out } } } } }.
Proof.
  all: try lia.
  - pose proof (csi_end_ge input (i + 2)); lia.
  - pose proof (osc_end_ge input (i + 2)); lia.
Qed.

Definition strip_ansi_and_osc (input : std_string) : std_string :=
  strip_loop input 0 [].

(** ** Data model *)

Record PackageInfo := {
  repo : std_string;
  name : std_string;
  version : std_string;
  description : std_string;
  installed : bool
}.

(** A default-constructed [PackageInfo]. *)
Definition PackageInfo_default : PackageInfo :=
  {| repo := []; name := []; version := []; description := [];
     installed := false |}.

(** ** String and stream primitives used by the parser *)

(** [s.find(c)]. *)
Fixpoint find_char (c : ascii) (s : std_string) : option nat :=
  match s with
  | [] => None
  | x :: s' => if Ascii.eqb x c then Some 0 else option_map S (find_char c s')
  end.

Fixpoint starts_with (p s : std_string) : bool :=
  match p, s with
  | [], _ => true
  | _ :: _, [] => false
  | a :: p', b :: s' => Ascii.eqb a b && starts_with p' s'
  end.

(** [s.find(p)] for a string [p]. *)
Fixpoint find_str (p s : std_string) : option nat :=
  match s with
  | [] => if starts_with p [] then Some 0 else None
  | _ :: s' => if starts_with p s then Some 0 else option_map S (find_str p s')
  end.

(** [s.find_first_not_of(set)]. *)
Fixpoint find_first_not_of (set s : std_string) : option nat :=
  match s with
  | [] => None
  | c :: s' =>
      if existsb (Ascii.eqb c) set then option_map S (find_first_not_of set s')
      else Some 0
  end.

(** [s.substr(pos)] and [s.substr(pos, n)], for [pos <= s.size()]. *)
Definition substr_from (s : std_string) (pos : nat) : std_string := skipn pos s.
Definition substr (s : std_string) (pos n : nat) : std_string :=
  firstn n (skipn pos s).

Definition HT : ascii := "009"%char.
Definition SP : ascii := " "%char.

(** Whitespace of the classic locale, which stream extraction skips. *)
Definition isspace (c : ascii) : bool :=
  Ascii.eqb c SP || ((9 <=? uchar c) && (uchar c <=? 13)).

(** The characters of [s] before the first newline, and what follows that
    newline. *)
Fixpoint until_newline (s : std_string) : std_string * std_string :=
  match s with
  | [] => ([], [])
  | c :: s' =>
      if Ascii.eqb c NL then ([], s')
      else let (l, r) := until_newline s' in (c :: l, r)
  end.

(** [std::getline(is, line)] on a stream whose unread part is [s]: fails
    when nothing is left, otherwise yields the line and the new unread
    part. *)
Definition getline (s : std_string) : option (std_string * std_string) :=
  match s with
  | [] => None
  | _ :: _ => Some (until_newline s)
  end.

Fixpoint skipws (s : std_string) : std_string :=
  match s with
  | [] => []
  | c :: s' => if isspace c then skipws s' else s
  end.

Fixpoint until_space (s : std_string) : std_string * std_string :=
  match s with
  | [] => ([], [])
  | c :: s' =>
      if isspace c then ([], s)
      else let (t, r) := until_space s' in (c :: t, r)
  end.

(** [is >> word] on a stream whose unread part is [s]: skips whitespace,
    fails if nothing is left, otherwise yields the word and the new unread
    part. *)
Definition extract_word (s : std_string) : option (std_string * std_string) :=
  match skipws s with
  | [] => None
  | c :: w => Some (until_space (c :: w))
  end.

(** ** Search-result parser ([parse_yay_search]) *)

Record parser_state := {
  pkgs : list PackageInfo;
  current : PackageInfo;
  expecting_desc : bool
}.

Definition parser_init : parser_state :=
  {| pkgs := []; current := PackageInfo_default; expecting_desc := false |}.

Definition set_description (p : PackageInfo) (d : std_string) : PackageInfo :=
  {| repo := repo p; name := name p; version := version p;
     description := d; installed := installed p |}.

Definition is_some {A : Type} (o : option A) : bool :=
  match o with Some _ => true | None => false end.

(** The header part of the loop body: [line] is neither empty nor a
    description line. *)
Definition parse_header (st : parser_state) (line : std_string) : parser_state :=
  match extract_word line with
  | None => st
  | Some (repo_name, header1) =>
      match extract_word header1 with
      | None => st
      | Some (version, header2) =>
          match find_char "/" repo_name with
          | None => st
          | Some slash_pos =>
              let rest :=
                match getline header2 with
                | Some (r, _) => r
                | None => []
                end in
              {| pkgs := pkgs st;
                 current :=
                   {| repo := substr repo_name 0 slash_pos;
                      name := substr_from repo_name (slash_pos + 1);
                      version := version;
                      description := [];
                      installed :=
                        is_some (find_str (lit "[installed]") rest)
                        || is_some (find_str (lit "(installed)") rest) |};
                 expecting_desc := true |}
          end
      end
  end.

(** One iteration of the [while (std::getline(iss, line))] loop. *)
Definition parse_line (st : parser_state) (line : std_string) : parser_state :=
  match line with
  | [] =>
      {| pkgs := pkgs st; current := current st; expecting_desc := false |}
  | c :: _ =>
      if Ascii.eqb c SP || Ascii.eqb c HT then
        if expecting_desc st then
          let cur :=
            set_description (current st)
              match find_first_not_of [SP; HT] line with
              | Some pos => substr_from line pos
              | None => line
              end in
          {| pkgs := pkgs st ++ [cur]; current := cur;
             expecting_desc := false |}
        else st
      else parse_header st line
  end.

Lemma until_newline_shorter (s : std_string) :
  length (snd (until_newline s)) <= pred (length s).
Proof.
  induction s as [|c s IH]; simpl; [lia|].
  destruct (Ascii.eqb c NL); simpl; [lia|].
  destruct (until_newline s) as [l r]; simpl in *.
  destruct s; simpl in *; lia.
Qed.

Lemma getline_shorter (s line s' : std_string) :
  getline s = Some (line, s') -> length s' < length s.
Proof.
  destruct s as [|c s]; [discriminate|].
  pose proof (until_newline_shorter (c :: s)) as H.
  unfold getline. intros E.
  replace (until_newline (c :: s)) with (line, s') in H by congruence.
  simpl in *. lia.
Qed.

Equations? parse_loop (iss : std_string) (st : parser_state)
  : list PackageInfo by wf (length iss) lt :=
  parse_loop iss st with inspect (getline iss) => {
    | exist _ None _ => pkgs st;
    | exist _ (Some (line, iss')) e => parse_loop iss' (parse_line st line) }.
Proof. eapply getline_shorter; eassumption. Qed.

Definition parse_yay_search (output : std_string) : list PackageInfo :=
  parse_loop output parser_init.

(** The lines the loop of [parse_yay_search] reads from [iss], in order. *)
Equations? getlines (iss : std_string) : list std_string
  by wf (length iss) lt :=
  getlines iss with inspect (getline iss) => {
    | exist _ None _ => [];
    | exist _ (Some (line, iss')) e => line :: getlines iss' }.
Proof. eapply getline_shorter; eassumption. Qed.

(** The three kinds of line the loop body tells apart. *)
Definition is_desc_line (line : std_string) : bool :=
  match line with
  | [] => false
  | c :: _ => Ascii.eqb c SP || Ascii.eqb c HT
  end.

(** A line read by [getline] that reaches the header part of the body. *)
Definition header_line (line : std_string) : bool :=
  match line with
  | [] => false
  | _ :: _ => negb (is_desc_line line) && negb (existsb (Ascii.eqb NL) line)
  end.

(** A header line the body accepts: two words, the first with a slash. *)
Definition valid_header (line : std_string) : bool :=
  header_line line &&
  match extract_word line with
  | None => false
  | Some (repo_name, header1) =>
      is_some (extract_word header1) && is_some (find_char "/" repo_name)
  end.

(** [line] without its leading run of spaces and tabs. *)
Fixpoint trim_leading (line : std_string) : std_string :=
  match line with
  | [] => []
  | c :: line' =>
      if Ascii.eqb c SP || Ascii.eqb c HT then trim_leading line' else line
  end.

Definition blank_only (line : std_string) : bool :=
  forallb (fun c => Ascii.eqb c SP || Ascii.eqb c HT) line.

(** [text] is empty or ends with a newline: what follows starts a line. *)
Definition ends_line (text : std_string) : Prop := last text NL = NL.

(** [text] is empty or starts with a newline: what precedes ends a line. *)
Definition breaks_line (text : std_string) : Prop := hd NL text = NL.

(** Where the repository [rp] and the name [nm] of a record come from:
    the first word of one of the lines [L], cut at its first slash. *)
Definition from_header (L : list std_string) (rp nm : std_string) : Prop :=
  exists line word rest pos,
    In line L /\
    extract_word line = Some (word, rest) /\
    find_char "/" word = Some pos /\
    rp = firstn pos word /\
    nm = skipn (pos + 1) word /\
    (rp = [] <-> pos = 0) /\
    (nm = [] <-> pos + 1 = length word).

(** The loop invariant: emitted records, and the candidate while a
    description is expected, come from a header line. *)
Definition parser_inv (L : list std_string) (st : parser_state) : Prop :=
  (forall r, In r (pkgs st) -> from_header L (repo r) (name r)) /\
  (expecting_desc st = true ->
   from_header L (repo (current st)) (name (current st))).

(** ** The world outside the program

    The program talks to the operating system through [popen], [fgets],
    [fwrite] and [pclose], and to GTK through its widgets and its event
    loop.  [World] records what the program did to them; [Host] fixes how
    they answer. *)

Inductive popen_mode := mode_r | mode_w.

(** A spawned child as seen through its pipe: the buffer contents after
    each successful [fgets], and the value [pclose] returns, which may
    depend on what was written to the child's standard input. *)
Record child := {
  child_output : list std_string;
  child_status : std_string -> Z
}.

Record World := {
  popen_calls : list (std_string * popen_mode); (* oldest first *)
  stdin_writes : list std_string;               (* data given to [fwrite] *)
  results_list : list PackageInfo;              (* rows of [g_results_list] *)
  status_label : option std_string              (* [None]: [g_status_label] is null *)
}.

Class Host := {
  (** the outcome of [popen(cmd, mode)]; [None] is a null [FILE*] *)
  os_popen : World -> std_string -> popen_mode -> option child;
  (** [while (gtk_events_pending()) gtk_main_iteration_do(FALSE);] *)
  gtk_events : World -> World
}.

(** State passing over [World]. *)
Definition IO (A : Type) : Type := World -> A * World.

Definition ret {A : Type} (a : A) : IO A := fun w => (a, w).

Definition bind {A B : Type} (m : IO A) (k : A -> IO B) : IO B :=
  fun w => let (a, w') := m w in k a w'.

Declare Scope io_scope.
Delimit Scope io_scope with io.
Bind Scope io_scope with IO.
Notation "x <- m ;; k" := (bind m (fun x => k))
  (at level 61, m at next level, right associativity) : io_scope.
Notation "m ;; k" := (bind m (fun _ => k))
  (at level 61, right associativity) : io_scope.
Open Scope io_scope.

Definition fwrite (data : std_string) : IO unit :=
  fun w => (tt, {| popen_calls := popen_calls w;
                   stdin_writes := stdin_writes w ++ [data];
                   results_list := results_list w;
                   status_label := status_label w |}).

Definition clear_results : IO unit :=
  fun w => (tt, {| popen_calls := popen_calls w;
                   stdin_writes := stdin_writes w;
                   results_list := [];
                   status_label := status_label w |}).

(** [gtk_list_box_insert(g_results_list, create_package_row(pkg), -1)]. *)
Definition insert_row (pkg : PackageInfo) : IO unit :=
  fun w => (tt, {| popen_calls := popen_calls w;
                   stdin_writes := stdin_writes w;
                   results_list := results_list w ++ [pkg];
                   status_label := status_label w |}).

(** [if (g_status_label) gtk_label_set_text(g_status_label, text)]. *)
Definition set_status (text : std_string) : IO unit :=
  fun w => (tt, {| popen_calls := popen_calls w;
                   stdin_writes := stdin_writes w;
                   results_list := results_list w;
                   status_label :=
                     match status_label w with
                     | Some _ => Some text
                     | None => None
                     end |}).

(** [std::to_string] on a counter. *)
Definition to_string (n : nat) : std_string :=
  lit (NilEmpty.string_of_uint (Nat.to_uint n)).

Definition set_installed (p : PackageInfo) (b : bool) : PackageInfo :=
  {| repo := repo p; name := name p; version := version p;
     description := description p; installed := b |}.

Section Runner.
Context {host : Host}.

Definition popen (cmd : std_string) (mode : popen_mode) : IO (option child) :=
  fun w => (os_popen w cmd mode,
            {| popen_calls := popen_calls w ++ [(cmd, mode)];
               stdin_writes := stdin_writes w;
               results_list := results_list w;
               status_label := status_label w |}).

Definition gtk_drain : IO unit := fun w => (tt, gtk_events w).

(** The [fgets] loop of [run_command] over the chunks the child delivers. *)
Fixpoint capture_loop (chunks : list std_string) (result : std_string)
  : IO std_string :=
  match chunks with
  | [] => ret result
  | buffer :: chunks' =>
      let result := result ++ buffer in
      gtk_drain ;; capture_loop chunks' result
  end.

Definition run_command (cmd : std_string) : IO std_string :=
  pipe <- popen cmd mode_r ;;
  match pipe with
  | None => ret []
  | Some ch => capture_loop (child_output ch) []
  end.

(** The [fgets] loop of [run_command_status]. *)
Fixpoint discard_loop (chunks : list std_string) : IO unit :=
  match chunks with
  | [] => ret tt
  | _ :: chunks' => gtk_drain ;; discard_loop chunks'
  end.

Definition run_command_status (cmd : std_string) : IO bool :=
  pipe <- popen cmd mode_r ;;
  match pipe with
  | None => ret false
  | Some ch =>
      discard_loop (child_output ch) ;;
      let rc := child_status ch [] in
      ret (rc =? 0)%Z
  end.

Definition run_sudo_with_password (password cmd : std_string) : IO bool :=
  match password with
  | [] => ret false
  | _ :: _ =>
      pipe <- popen cmd mode_w ;;
      match pipe with
      | None => ret false
      | Some ch =>
          let pwline := password ++ [NL] in
          fwrite pwline ;;
          let rc := child_status ch pwline in
          ret (rc =? 0)%Z
      end
  end.

Definition is_package_installed (name : std_string) : IO bool :=
  let cmd := lit "pacman -Qi " ++ name ++ lit " >/dev/null 2>&1" in
  run_command_status cmd.

(** The loop of [populate_results]; yields the two counters. *)
Fixpoint populate_loop (pkgs : list PackageInfo) (total installed_count : nat)
  : IO (nat * nat) :=
  match pkgs with
  | [] => ret (total, installed_count)
  | pkg :: pkgs' =>
      insert_row pkg ;;
      populate_loop pkgs' (total + 1)
        (if installed pkg then installed_count + 1 else installed_count)
  end.

Definition populate_results (pkgs : list PackageInfo) : IO unit :=
  clear_results ;;
  counts <- populate_loop pkgs 0 0 ;;
  set_status (lit "Results: " ++ to_string (fst counts) ++
              lit "  | Installed: " ++ to_string (snd counts) ++
              lit " (already on system)").

(** The [for (auto &pkg : pkgs)] loop of [perform_search]. *)
Fixpoint resolve_installed (pkgs : list PackageInfo) : IO (list PackageInfo) :=
  match pkgs with
  | [] => ret []
  | pkg :: pkgs' =>
      b <- is_package_installed (name pkg) ;;
      let pkg' :=
        if b then set_installed pkg true else set_installed pkg false in
      rest <- resolve_installed pkgs' ;;
      ret (pkg' :: rest)
  end.

Definition perform_search (query : std_string) : IO unit :=
  match query with
  | [] =>
      clear_results ;;
      set_status (lit "Ready. Enter a search term.")
  | _ :: _ =>
      let cmd := lit "yay -Ss " ++ query in
      raw_output <- run_command cmd ;;
      let output := strip_ansi_and_osc raw_output in
      let pkgs := parse_yay_search output in
      pkgs <- resolve_installed pkgs ;;
      populate_results pkgs ;;
      match pkgs with
      | [] => set_status (lit "No results found.")
      | _ :: _ => ret tt
      end
  end.

End Runner.

(** The two-record listing used as the parser's reference input. *)
Definition sample_listing : std_string :=
  lit "core/foo 1.0-1" ++ NL :: lit "    A sample package" ++ NL ::
  lit "extra/bar 2.0-1 [installed]" ++ NL :: lit "    Another package" ++ [NL].

(** [w'] continues the history of [w]: the [popen] calls logged in [w],
    then possibly more. *)
Definition extends (w w' : World) : Prop :=
  exists l, popen_calls w' = popen_calls w ++ l.

(** ** Two hosts to run the pipeline on *)

Definition world0 : World :=
  {| popen_calls := []; stdin_writes := []; results_list := [];
     status_label := Some (lit "Ready. Enter a search term.") |}.

(** A host on which no subprocess can be spawned. *)
Definition host_no_spawn : Host :=
  {| os_popen := fun _ _ _ => None; gtk_events := fun w => w |}.

(** A host where [yay] prints the reference listing and [pacman] knows
    [foo] only. *)
Definition host_sample : Host :=
  {| os_popen := fun _ cmd _ =>
       if starts_with (lit "yay -Ss ") cmd then
         Some {| child_output := [sample_listing];
                 child_status := fun _ => 0%Z |}
       else if starts_with (lit "pacman -Qi foo ") cmd then
         Some {| child_output := []; child_status := fun _ => 0%Z |}
       else
         Some {| child_output := []; child_status := fun _ => 256%Z |};
     gtk_events := fun w => w |}.

(** ** Notions used to state what the stripper keeps and drops *)

(** [s] is [t] with some characters left out, the others in order. *)
Inductive subseq : std_string -> std_string -> Prop :=
| subseq_nil : subseq [] []
| subseq_skip (c : ascii) (s t : std_string) : subseq s t -> subseq s (c :: t)
| subseq_keep (c : ascii) (s t : std_string) :
    subseq s t -> subseq (c :: s) (c :: t).

(** What follows the final byte of a CSI sequence whose parameters start
    at [s]; nothing if there is no final byte. *)
Fixpoint csi_rest (s : std_string) : std_string :=
  match s with
  | [] => []
  | d :: s' => if is_csi_final d then s' else csi_rest s'
  end.

(** What follows the terminator (BEL, or ESC and a backslash) of an OSC
    sequence whose body starts at [s]; nothing if there is none. *)
Fixpoint osc_rest (s : std_string) : std_string :=
  match s with
  | [] => []
  | d :: s' =>
      if Ascii.eqb d BEL then s'
      else
        match s' with
        | e :: s'' =>
            if Ascii.eqb d ESC && Ascii.eqb e "\" then s'' else osc_rest s'
        | [] => osc_rest s'
        end
  end.

(** ** Notions used to state what the parser accepts *)

(** A line read by [getline] that the loop body takes for a description. *)
Definition description_line (line : std_string) : bool :=
  is_desc_line line && negb (existsb (Ascii.eqb NL) line).

(** A word as stream extraction sees it: no whitespace inside. *)
Definition no_space (w : std_string) : bool :=
  forallb (fun c => negb (isspace c)) w.

(** An entry of a [yay -Ss] listing as the tool prints it: the header
    line, then the description indented by four spaces. *)
Definition header_text (p : PackageInfo) : std_string :=
  (repo p ++ "/"%char :: name p) ++ SP :: version p ++
  (if installed p then lit " [installed]" else []).

Definition description_text (p : PackageInfo) : std_string :=
  lit "    " ++ description p.

Definition format_entry (p : PackageInfo) : std_string :=
  header_text p ++ NL :: description_text p ++ [NL].

Definition format_listing (ps : list PackageInfo) : std_string :=
  concat (map format_entry ps).

(** The records a listing can carry: words for repository, name and
    version, no slash in the repository, a version, and a one-line
    description that starts with a visible character. *)
Definition printable (p : PackageInfo) : bool :=
  no_space (repo p) && no_space (name p) && no_space (version p) &&
  negb (existsb (Ascii.eqb "/") (repo p)) &&
  match version p with [] => false | _ :: _ => true end &&
  match description p with
  | [] => false
  | c :: _ => negb (Ascii.eqb c SP || Ascii.eqb c HT)
  end &&
  negb (existsb (Ascii.eqb NL) (description p)).

(** The number of records the loop may still owe to headers read. *)
Definition flag_count (st : parser_state) : nat :=
  if expecting_desc st then 1 else 0.

(** Fields a header can give to the candidate. *)
Definition word_fields (r : PackageInfo) : Prop :=
  version r <> [] /\
  no_space (repo r) = true /\ no_space (name r) = true /\
  no_space (version r) = true.

Definition fields_inv (st : parser_state) : Prop :=
  (forall r, In r (pkgs st) -> word_fields r /\ ~ In NL (description r)) /\
  (expecting_desc st = true -> word_fields (current st)).

(** ** Notions used to state what a search leaves behind *)

(** The command line of the installed-check for [name]. *)
Definition pacman_query (name : std_string) : std_string :=
  lit "pacman -Qi " ++ name ++ lit " >/dev/null 2>&1".

(** The status text [populate_results] composes for the rows [pkgs]. *)
Definition results_status (pkgs : list PackageInfo) : std_string :=
  lit "Results: " ++ to_string (length pkgs) ++
  lit "  | Installed: " ++ to_string (length (filter installed pkgs)) ++
  lit " (already on system)".

(** The event loop neither spawns a command nor feeds a child. *)
Definition quiet_events {host : Host} : Prop :=
  forall w,
    popen_calls (gtk_events w) = popen_calls w /\
    stdin_writes (gtk_events w) = stdin_writes w.

(** ** The handlers of the install, remove and clean buttons

    The handlers talk to the user through modal message dialogs and read
    the search entry; [Desktop] fixes how these answer.  The cached
    password [g_sudo_password] is written at start-up only and is passed
    to the handlers as the value they read.  Widgets that are created and
    destroyed without being run (the progress notice) leave no trace in
    [World] and are not shown here. *)

Inductive message_type := MESSAGE_INFO | MESSAGE_QUESTION | MESSAGE_ERROR.

Definition GTK_RESPONSE_OK : Z := (-5)%Z.

Class Desktop := {
  (** [gtk_dialog_run] on a modal message dialog of this type and text:
      the response, and the world after the dialog's own main loop *)
  gtk_dialog_run : message_type -> std_string -> World -> Z * World;
  (** [gtk_entry_get_text(g_search_entry)]; [None] is a null pointer *)
  gtk_entry_get_text : World -> option std_string
}.

Definition DQ : ascii := "034"%char.

Definition no_password_text : std_string :=
  lit "No sudo password cached." ++ NL :: lit "Please restart the app.".

Definition install_question (pkg_name : std_string) : std_string :=
  lit "Install package " ++ DQ :: pkg_name ++ DQ :: lit " using yay?".

Definition install_command (pkg_name : std_string) : std_string :=
  lit "yay -S --noconfirm " ++ lit "--answerclean None " ++
  lit "--answerdiff None " ++ lit "--answeredit None " ++ pkg_name.

Definition install_done_text (ok : bool) : std_string :=
  if ok then
    lit "Installation finished." ++ NL ::
    lit "Re-run the search to see the updated status."
  else
    lit "Installation may have failed." ++ NL ::
    lit "Check terminal logs or run yay manually.".

Definition remove_question (pkg_name : std_string) : std_string :=
  lit "Remove package " ++ DQ :: pkg_name ++ DQ :: lit "?" ++ NL :: NL ::
  lit "This will also remove unused dependencies.".

Definition remove_command (pkg_name : std_string) : std_string :=
  lit "yay -Rns --noconfirm " ++ pkg_name.

Definition remove_done_text (ok : bool) : std_string :=
  if ok then
    lit "Removal finished." ++ NL ::
    lit "Re-run the search to see the updated status."
  else
    lit "Removal may have failed." ++ NL ::
    lit "Check terminal logs or run yay manually.".

Definition clean_question : std_string :=
  lit "Clean up orphaned packages?" ++ NL :: NL ::
  lit "This runs " ++ DQ :: lit "yay -Yc --noconfirm" ++ DQ ::
  lit " to remove unused dependencies.".

Definition clean_command : std_string := lit "yay -Yc --noconfirm".

Definition clean_done_text (ok : bool) : std_string :=
  if ok then lit "Orphan cleanup finished."
  else
    lit "Cleanup may have failed." ++ NL ::
    lit "Check terminal logs or run yay -Yc manually.".

Definition sudo_command : std_string := lit "sudo -S -v".

Section Handlers.
Context {host : Host} {desk : Desktop}.

(** [gtk_message_dialog_new], [gtk_dialog_run], [gtk_widget_destroy]. *)
Definition message_dialog (type : message_type) (text : std_string) : IO Z :=
  fun w => gtk_dialog_run type text w.

Definition search_entry_text : IO (option std_string) :=
  fun w => (gtk_entry_get_text w, w).

Definition on_install_clicked (g_sudo_password : std_string)
           (user_data : option std_string) : IO unit :=
  match user_data with
  | None => ret tt
  | Some pkg_name =>
      match g_sudo_password with
      | [] => message_dialog MESSAGE_ERROR no_password_text ;; ret tt
      | _ :: _ =>
          response <- message_dialog MESSAGE_QUESTION (install_question pkg_name) ;;
          if negb (response =? GTK_RESPONSE_OK)%Z then ret tt
          else
            set_status (lit "Installing " ++ pkg_name ++ lit "...") ;;
            auth_ok <- run_sudo_with_password g_sudo_password sudo_command ;;
            ok <- (if auth_ok
                   then run_command_status (install_command pkg_name)
                   else ret false) ;;
            message_dialog (if ok then MESSAGE_INFO else MESSAGE_ERROR)
              (install_done_text ok) ;;
            current_query <- search_entry_text ;;
            match current_query with
            | Some (c :: q) => perform_search (c :: q)
            | _ => set_status (lit "Ready. Enter a search term.")
            end
      end
  end.

Definition on_remove_clicked (g_sudo_password : std_string)
           (user_data : option std_string) : IO unit :=
  match user_data with
  | None => ret tt
  | Some pkg_name =>
      match g_sudo_password with
      | [] => message_dialog MESSAGE_ERROR no_password_text ;; ret tt
      | _ :: _ =>
          response <- message_dialog MESSAGE_QUESTION (remove_question pkg_name) ;;
          if negb (response =? GTK_RESPONSE_OK)%Z then ret tt
          else
            set_status (lit "Removing " ++ pkg_name ++ lit "...") ;;
            auth_ok <- run_sudo_with_password g_sudo_password sudo_command ;;
            ok <- (if auth_ok
                   then run_command_status (remove_command pkg_name)
                   else ret false) ;;
            message_dialog (if ok then MESSAGE_INFO else MESSAGE_ERROR)
              (remove_done_text ok) ;;
            current_query <- search_entry_text ;;
            match current_query with
            | Some (c :: q) => perform_search (c :: q)
            | _ => set_status (lit "Ready. Enter a search term.")
            end
      end
  end.

Definition on_clean_orphans_clicked (g_sudo_password : std_string) : IO unit :=
  match g_sudo_password with
  | [] => message_dialog MESSAGE_ERROR no_password_text ;; ret tt
  | _ :: _ =>
      response <- message_dialog MESSAGE_QUESTION clean_question ;;
      if negb (response =? GTK_RESPONSE_OK)%Z then ret tt
      else
        set_status (lit "Cleaning orphaned packages...") ;;
        auth_ok <- run_sudo_with_password g_sudo_password sudo_command ;;
        ok <- (if auth_ok then run_command_status clean_command else ret false) ;;
        message_dialog (if ok then MESSAGE_INFO else MESSAGE_ERROR)
          (clean_done_text ok) ;;
        set_status (lit "Orphan cleanup complete. You can search again.")
  end.

(** [on_search_activated]; [text] is what [gtk_entry_get_text] gave. *)
Definition on_search_activated (text : option std_string) : IO unit :=
  match text with
  | None => ret tt
  | Some query => perform_search query
  end.

End Handlers.

(** The dialogs neither spawn a command nor feed a child. *)
Definition quiet_dialogs {desk : Desktop} : Prop :=
  forall type text w,
    popen_calls (snd (gtk_dialog_run type text w)) = popen_calls w /\
    stdin_writes (snd (gtk_dialog_run type text w)) = stdin_writes w.

(** A desktop where every question is answered with the given response
    and the search entry holds the given text. *)
Definition desk_answering (response : Z) (entry : option std_string) : Desktop :=
  {| gtk_dialog_run := fun _ _ w => (response, w);
     gtk_entry_get_text := fun _ => entry |}.

(** A host where [sudo] accepts the password [secret] only, and [yay]
    succeeds. *)
Definition host_sudo : Host :=
  {| os_popen := fun _ cmd mode =>
       match mode with
       | mode_w =>
           Some {| child_output := [];
                   child_status := fun input =>
                     if list_eq_dec ascii_dec input (lit "secret" ++ [NL])
                     then 0%Z else 256%Z |}
       | mode_r => Some {| child_output := []; child_status := fun _ => 0%Z |}
       end;
     gtk_events := fun w => w |}.

(** The calls a search of [query] makes from the world [w] when the event
    loop spawns nothing: the search tool, then the installed-checks. *)
Definition search_calls {host : Host} (query : std_string) (w : World)
  : list (std_string * popen_mode) :=
  (lit "yay -Ss " ++ query, mode_r) ::
  map (fun p => (pacman_query (name p), mode_r))
    (parse_yay_search
       (strip_ansi_and_osc (fst (run_command (lit "yay -Ss " ++ query) w)))).

(** The calls of the search that ends the install and remove handlers. *)
Definition refresh_calls {host : Host} {desk : Desktop} (w : World)
  : list (std_string * popen_mode) :=
  match gtk_entry_get_text w with
  | Some (c :: q) => search_calls (c :: q) w
  | _ => []
  end.

(** A call made by a search: the search tool or an installed-check. *)
Definition is_query_call (call : std_string * popen_mode) : bool :=
  starts_with (lit "yay -Ss ") (fst call) ||
  starts_with (lit "pacman -Qi ") (fst call).

(** * Properties *)

(** ** The stripper *)

Example strip_csi :
  strip_ansi_and_osc (ESC :: lit "[31mfoo" ++ ESC :: lit "[0m") = lit "foo".
Proof. reflexivity. Qed.

Example strip_osc :
  strip_ansi_and_osc
    (ESC :: lit "]8;;http://x" ++ BEL :: lit "link" ++ ESC :: lit "]8;;" ++ [BEL])
  = lit "link".
Proof. reflexivity. Qed.

Example strip_dangling : strip_ansi_and_osc (lit "abc" ++ [ESC]) = lit "abc".
Proof. reflexivity. Qed.

Lemma skipn_char_at (s : std_string) (i : nat) :
  i < length s -> skipn i s = char_at s i :: skipn (i + 1) s.
Proof.
  revert i. induction s as [|c s IH]; simpl; intros i Hi; [lia|].
  destruct i as [|i]; simpl; [reflexivity|].
  apply IH. lia.
Qed.

Lemma char_at_In (s : std_string) (i : nat) :
  i < length s -> In (char_at s i) s.
Proof. intros Hi. apply nth_In. exact Hi. Qed.

(** Only characters other than ESC are ever pushed onto [out]. *)
Lemma strip_loop_no_esc (input : std_string) (i : nat) (out : std_string) :
  ~ In ESC out -> ~ In ESC (strip_loop input i out).
Proof.
  funelim (strip_loop input i out); intros Hout; auto.
  match goal with IH : _ -> ~ In ESC (strip_loop _ _ _) |- _ => apply IH end.
  rewrite in_app_iff. intros [Hin | [Hin | []]]; [auto|].
  match goal with E : Ascii.eqb _ ESC = false |- _ =>
    apply Ascii.eqb_neq in E; apply E end.
  congruence.
Qed.

(** On a text without ESC the loop copies what is left of the input. *)
Lemma strip_loop_plain (input : std_string) (i : nat) (out : std_string) :
  ~ In ESC input -> strip_loop input i out = out ++ skipn i input.
Proof.
  funelim (strip_loop input i out); intros Hplain.
  - rewrite skipn_all2 by lia. now rewrite app_nil_r.
  - match goal with IH : _ -> strip_loop _ _ _ = _ |- _ => rewrite IH by assumption end.
    rewrite <- app_assoc. simpl. now rewrite <- skipn_char_at.
  - exfalso. apply Hplain.
    match goal with E : Ascii.eqb _ ESC = true |- _ =>
      apply Ascii.eqb_eq in E; rewrite <- E end.
    now apply char_at_In.
  - exfalso. apply Hplain.
    match goal with E : Ascii.eqb _ ESC = true |- _ =>
      apply Ascii.eqb_eq in E; rewrite <- E end.
    now apply char_at_In.
  - exfalso. apply Hplain.
    match goal with E : Ascii.eqb _ ESC = true |- _ =>
      apply Ascii.eqb_eq in E; rewrite <- E end.
    now apply char_at_In.
  - exfalso. apply Hplain.
    match goal with E : Ascii.eqb _ ESC = true |- _ =>
      apply Ascii.eqb_eq in E; rewrite <- E end.
    now apply char_at_In.
Qed.

(** C9: the output of [strip_ansi_and_osc] contains no ESC byte. *)
Theorem strip_output_has_no_esc (input : std_string) :
  ~ In ESC (strip_ansi_and_osc input).
Proof.
  unfold strip_ansi_and_osc. apply strip_loop_no_esc. intros [].
Qed.

(** C3: [strip_ansi_and_osc] is idempotent. *)
Theorem strip_idempotent (x : std_string) :
  strip_ansi_and_osc (strip_ansi_and_osc x) = strip_ansi_and_osc x.
Proof.
  unfold strip_ansi_and_osc at 1.
  rewrite strip_loop_plain.
  - reflexivity.
  - unfold strip_ansi_and_osc. apply strip_loop_no_esc. intros [].
Qed.

(** ** The parser *)

Lemma getlines_step (iss : std_string) :
  getlines iss =
  match getline iss with
  | None => []
  | Some (line, iss') => line :: getlines iss'
  end.
Proof.
  funelim (getlines iss);
    match goal with E : getline iss = _ |- _ => now rewrite E end.
Qed.

Lemma parse_loop_step (iss : std_string) (st : parser_state) :
  parse_loop iss st =
  match getline iss with
  | None => pkgs st
  | Some (line, iss') => parse_loop iss' (parse_line st line)
  end.
Proof.
  funelim (parse_loop iss st);
    match goal with E : getline iss = _ |- _ => now rewrite E end.
Qed.

(** The loop is a left fold of its body over the lines read. *)
Lemma parse_loop_fold (iss : std_string) (st : parser_state) :
  parse_loop iss st = pkgs (fold_left parse_line (getlines iss) st).
Proof.
  funelim (parse_loop iss st); rewrite getlines_step;
    match goal with E : getline iss = _ |- _ => rewrite E end;
    simpl; [assumption | reflexivity].
Qed.

Lemma parse_yay_search_fold (output : std_string) :
  parse_yay_search output =
  pkgs (fold_left parse_line (getlines output) parser_init).
Proof. apply parse_loop_fold. Qed.

Lemma getlines_nil : getlines [] = [].
Proof. now rewrite getlines_step. Qed.

Lemma getlines_newline (s : std_string) : getlines (NL :: s) = [] :: getlines s.
Proof. now rewrite getlines_step. Qed.

Lemma getlines_cons (c : ascii) (s : std_string) :
  c <> NL ->
  getlines (c :: s) =
  match getlines s with
  | [] => [[c]]
  | l :: ls => (c :: l) :: ls
  end.
Proof.
  intros Hc. apply Ascii.eqb_neq in Hc.
  rewrite (getlines_step (c :: s)), (getlines_step s).
  unfold getline. simpl. rewrite Hc.
  destruct s as [|d s]; [simpl; now rewrite getlines_nil|].
  destruct (until_newline (d :: s)) as [l r]. reflexivity.
Qed.

Lemma getlines_nonempty (s : std_string) : s <> [] -> getlines s <> [].
Proof.
  destruct s as [|c s]; [congruence|]. intros _.
  rewrite getlines_step. unfold getline.
  destruct (until_newline (c :: s)). discriminate.
Qed.

Lemma ends_line_tail (c : ascii) (s : std_string) :
  ends_line (c :: s) -> ends_line s /\ (c <> NL -> s <> []).
Proof.
  unfold ends_line. destruct s as [|d s]; simpl.
  - intros ->. split; [reflexivity | congruence].
  - intros H. split; [exact H | discriminate].
Qed.

Lemma getlines_app (pre t : std_string) :
  ends_line pre -> getlines (pre ++ t) = getlines pre ++ getlines t.
Proof.
  induction pre as [|c pre IH]; intros Hend.
  - now rewrite getlines_nil.
  - apply ends_line_tail in Hend. destruct Hend as [Hend Hne].
    simpl. destruct (Ascii.eqb_spec c NL) as [-> | Hc].
    + rewrite !getlines_newline, IH by assumption. reflexivity.
    + rewrite !getlines_cons, IH by assumption.
      pose proof (getlines_nonempty pre (Hne Hc)).
      destruct (getlines pre); [congruence | reflexivity].
Qed.

Lemma getlines_line_nl (h t : std_string) :
  existsb (Ascii.eqb NL) h = false -> getlines (h ++ NL :: t) = h :: getlines t.
Proof.
  induction h as [|c h IH]; simpl; intros Hnl.
  - apply getlines_newline.
  - apply orb_false_elim in Hnl. destruct Hnl as [Hc Hnl].
    apply Ascii.eqb_neq in Hc.
    rewrite getlines_cons, IH by congruence. reflexivity.
Qed.

Lemma getlines_line (h : std_string) :
  existsb (Ascii.eqb NL) h = false -> h <> [] -> getlines h = [h].
Proof.
  induction h as [|c h IH]; simpl; intros Hnl Hne; [congruence|].
  apply orb_false_elim in Hnl. destruct Hnl as [Hc Hnl].
  apply Ascii.eqb_neq in Hc.
  rewrite getlines_cons by congruence.
  destruct h as [|d h]; [now rewrite getlines_nil|].
  rewrite IH; [reflexivity | assumption | discriminate].
Qed.

Lemma getlines_line_break (h tail : std_string) :
  existsb (Ascii.eqb NL) h = false -> h <> [] -> breaks_line tail ->
  getlines (h ++ tail) = h :: getlines (tl tail).
Proof.
  intros Hnl Hne Hbr. destruct tail as [|c t].
  - rewrite app_nil_r, getlines_line by assumption.
    simpl. now rewrite getlines_nil.
  - unfold breaks_line in Hbr. simpl in Hbr. subst c.
    now apply getlines_line_nl.
Qed.

Lemma header_line_inv (h : std_string) :
  header_line h = true ->
  h <> [] /\ is_desc_line h = false /\ existsb (Ascii.eqb NL) h = false.
Proof.
  destruct h as [|c h]; [discriminate|].
  unfold header_line. intros H. apply andb_prop in H. destruct H as [H1 H2].
  apply negb_true_iff in H1. apply negb_true_iff in H2.
  repeat split; [discriminate | assumption | assumption].
Qed.

Lemma parse_header_pkgs (st : parser_state) (line : std_string) :
  pkgs (parse_header st line) = pkgs st.
Proof.
  unfold parse_header.
  destruct (extract_word line) as [[repo_name header1]|]; [|reflexivity].
  destruct (extract_word header1) as [[ver header2]|]; [|reflexivity].
  destruct (find_char "/" repo_name); reflexivity.
Qed.

(** The body appends one record when it consumes a description line with
    the flag set, and leaves the output alone otherwise. *)
Lemma parse_line_pkgs (st : parser_state) (line : std_string) :
  pkgs (parse_line st line) =
  if is_desc_line line && expecting_desc st
  then pkgs st ++ [current (parse_line st line)]
  else pkgs st.
Proof.
  destruct line as [|c line]; [reflexivity|].
  unfold parse_line, is_desc_line.
  destruct (Ascii.eqb c SP || Ascii.eqb c HT); simpl.
  - destruct (expecting_desc st); reflexivity.
  - apply parse_header_pkgs.
Qed.

(** An accepted header replaces the whole candidate and sets the flag. *)
Lemma valid_header_step (h : std_string) :
  valid_header h = true ->
  exists cur, forall st,
    parse_line st h =
    {| pkgs := pkgs st; current := cur; expecting_desc := true |}.
Proof.
  unfold valid_header. intros H. apply andb_prop in H. destruct H as [Hh Hw].
  apply header_line_inv in Hh. destruct Hh as (Hne & Hd & _).
  destruct h as [|c h]; [congruence|].
  unfold parse_line. unfold is_desc_line in Hd. rewrite Hd.
  unfold parse_header.
  destruct (extract_word (c :: h)) as [[repo_name header1]|]; [|discriminate].
  apply andb_prop in Hw. destruct Hw as [Hv Hs].
  destruct (extract_word header1) as [[ver header2]|]; [|discriminate].
  destruct (find_char "/" repo_name) as [slash_pos|]; [|discriminate].
  eexists. intros st. reflexivity.
Qed.

Lemma header_line_fold (st : parser_state) (h : std_string) :
  header_line h = true -> pkgs (parse_line st h) = pkgs st.
Proof.
  intros Hh. apply header_line_inv in Hh. destruct Hh as (_ & Hd & _).
  now rewrite parse_line_pkgs, Hd.
Qed.

(** C4: a record is emitted only when a description line is consumed with
    the expecting-description flag set; a header line followed by the end
    of the input yields no record, and of two consecutive accepted header
    lines the first yields no record. *)
Theorem record_needs_description_line :
  (forall st line,
     pkgs (parse_line st line) =
     if is_desc_line line && expecting_desc st
     then pkgs st ++ [current (parse_line st line)]
     else pkgs st) /\
  (forall pre h,
     ends_line pre -> header_line h = true ->
     parse_yay_search (pre ++ h) = parse_yay_search pre /\
     parse_yay_search (pre ++ h ++ [NL]) = parse_yay_search pre) /\
  (forall pre h1 h2 tail,
     ends_line pre -> valid_header h1 = true -> valid_header h2 = true ->
     breaks_line tail ->
     parse_yay_search (pre ++ h1 ++ NL :: h2 ++ tail) =
     parse_yay_search (pre ++ h2 ++ tail)).
Proof.
  split; [exact parse_line_pkgs|]. split.
  - intros pre h Hend Hh.
    destruct (header_line_inv h Hh) as (Hne & _ & Hnl).
    rewrite !parse_yay_search_fold, !(getlines_app pre _ Hend).
    rewrite (getlines_line_break h [NL] Hnl Hne eq_refl).
    rewrite (getlines_line h Hnl Hne). simpl tl. rewrite getlines_nil.
    rewrite !fold_left_app. simpl.
    split; now apply header_line_fold.
  - intros pre h1 h2 tail Hend Hv1 Hv2 Hbr.
    destruct (valid_header_step h1 Hv1) as [cur1 E1].
    destruct (valid_header_step h2 Hv2) as [cur2 E2].
    unfold valid_header in Hv1, Hv2.
    apply andb_prop in Hv1. destruct Hv1 as [Hh1 _].
    apply andb_prop in Hv2. destruct Hv2 as [Hh2 _].
    destruct (header_line_inv h1 Hh1) as (Hne1 & _ & Hnl1).
    destruct (header_line_inv h2 Hh2) as (Hne2 & _ & Hnl2).
    rewrite !parse_yay_search_fold, !(getlines_app pre _ Hend).
    rewrite (getlines_line_nl h1 _ Hnl1).
    rewrite (getlines_line_break h2 tail Hnl2 Hne2 Hbr).
    rewrite !fold_left_app. simpl.
    rewrite E1, !E2. reflexivity.
Qed.

Lemma record_needs_description_line_witness :
  parse_yay_search (lit "core/foo 1.0-1") = parse_yay_search [] /\
  parse_yay_search
    (lit "aur/x 1" ++ NL :: lit "core/foo 1.0-1" ++ NL :: lit " text" ++ [NL]) =
  parse_yay_search (lit "core/foo 1.0-1" ++ NL :: lit " text" ++ [NL]).
Proof.
  destruct record_needs_description_line as (_ & Heoi & Htwo).
  split.
  - apply (Heoi [] (lit "core/foo 1.0-1")); reflexivity.
  - apply (Htwo [] (lit "aur/x 1") (lit "core/foo 1.0-1")
             (NL :: lit " text" ++ [NL])); reflexivity.
Defined.

(** C5: the reference listing parses to its two records, in order. *)
Theorem parse_sample_listing :
  parse_yay_search sample_listing =
  [ {| repo := lit "core"; name := lit "foo"; version := lit "1.0-1";
       description := lit "A sample package"; installed := false |};
    {| repo := lit "extra"; name := lit "bar"; version := lit "2.0-1";
       description := lit "Another package"; installed := true |} ].
Proof. vm_compute. reflexivity. Qed.

(** *** The description of an emitted record *)

Lemma find_first_not_of_blank (line : std_string) :
  match find_first_not_of [SP; HT] line with
  | None => blank_only line = true
  | Some pos => blank_only line = false /\ skipn pos line = trim_leading line
  end.
Proof.
  induction line as [|c line IH]; [reflexivity|].
  cbn [find_first_not_of existsb blank_only forallb trim_leading].
  rewrite orb_false_r.
  destruct (Ascii.eqb c SP || Ascii.eqb c HT); [|split; reflexivity].
  destruct (find_first_not_of [SP; HT] line) as [pos|]; simpl; assumption.
Qed.

(** C7, as the code has it: a description line consumed with the flag set
    emits the candidate with the line's leading spaces and tabs removed,
    except that a line made only of spaces and tabs is kept whole. *)
Theorem description_of_emitted_record (st : parser_state) (line : std_string) :
  is_desc_line line = true -> expecting_desc st = true ->
  let r :=
    set_description (current st)
      (if blank_only line then line else trim_leading line) in
  parse_line st line =
  {| pkgs := pkgs st ++ [r]; current := r; expecting_desc := false |}.
Proof.
  intros Hd He. destruct line as [|c line]; [discriminate|].
  unfold parse_line. unfold is_desc_line in Hd. rewrite Hd, He.
  pose proof (find_first_not_of_blank (c :: line)) as H.
  destruct (find_first_not_of [SP; HT] (c :: line)) as [pos|].
  - destruct H as [Hb Ht]. unfold substr_from. rewrite Hb, Ht. reflexivity.
  - rewrite H. reflexivity.
Qed.

Lemma description_of_emitted_record_witness :
  parse_line
    {| pkgs := []; current := PackageInfo_default; expecting_desc := true |}
    (lit "   text") =
  {| pkgs := [set_description PackageInfo_default (lit "text")];
     current := set_description PackageInfo_default (lit "text");
     expecting_desc := false |}.
Proof.
  apply (description_of_emitted_record
           {| pkgs := []; current := PackageInfo_default;
              expecting_desc := true |} (lit "   text")); reflexivity.
Defined.

(** C7 as stated fails: a description line of two spaces is emitted as a
    description of two spaces, not as the empty trimmed line. *)
Lemma blank_description_kept :
  exists r,
    parse_yay_search (lit "a/b 1" ++ NL :: lit "  " ++ [NL]) = [r] /\
    description r = lit "  " /\
    trim_leading (lit "  ") = [] /\
    description r <> trim_leading (lit "  ").
Proof.
  eexists. split; [vm_compute; reflexivity|].
  repeat split. discriminate.
Qed.

(** *** Repository and name of an emitted record *)

Lemma find_char_lt (c : ascii) (s : std_string) (pos : nat) :
  find_char c s = Some pos -> pos < length s.
Proof.
  revert pos. induction s as [|x s IH]; simpl; intros pos; [discriminate|].
  destruct (Ascii.eqb x c).
  - intros [= <-]. lia.
  - destruct (find_char c s) as [q|]; simpl; [|discriminate].
    intros [= <-]. specialize (IH q eq_refl). lia.
Qed.

Lemma firstn_nil_iff (s : std_string) (pos : nat) :
  pos < length s -> (firstn pos s = [] <-> pos = 0).
Proof.
  intros Hlt. split.
  - intros H. apply (f_equal (@length ascii)) in H.
    rewrite length_firstn in H. simpl in H. lia.
  - intros ->. reflexivity.
Qed.

Lemma skipn_nil_iff (s : std_string) (n : nat) :
  n <= length s -> (skipn n s = [] <-> n = length s).
Proof.
  intros Hle. split.
  - intros H. apply (f_equal (@length ascii)) in H.
    rewrite length_skipn in H. simpl in H. lia.
  - intros ->. apply skipn_all.
Qed.

Lemma parse_header_inv (L : list std_string) (st : parser_state)
      (line : std_string) :
  In line L -> parser_inv L st -> parser_inv L (parse_header st line).
Proof.
  intros Hin [Hp Hc]. unfold parse_header.
  destruct (extract_word line) as [[word header1]|] eqn:Ew; [|now split].
  destruct (extract_word header1) as [[ver header2]|]; [|now split].
  destruct (find_char "/" word) as [pos|] eqn:Ef; [|now split].
  split; [exact Hp|]. intros _. cbn [current repo name].
  pose proof (find_char_lt _ _ _ Ef) as Hlt.
  exists line, word, header1, pos. unfold substr, substr_from.
  cbn [skipn].
  repeat split; try assumption; try reflexivity.
  - apply firstn_nil_iff; assumption.
  - apply firstn_nil_iff; assumption.
  - apply skipn_nil_iff; lia.
  - apply skipn_nil_iff; lia.
Qed.

Lemma parse_line_inv (L : list std_string) (st : parser_state)
      (line : std_string) :
  In line L -> parser_inv L st -> parser_inv L (parse_line st line).
Proof.
  intros Hin Hinv. destruct line as [|c line].
  - destruct Hinv as [Hp _]. split; [exact Hp | discriminate].
  - unfold parse_line.
    destruct (Ascii.eqb c SP || Ascii.eqb c HT);
      [|now apply parse_header_inv].
    destruct (expecting_desc st) eqn:He; [|exact Hinv].
    destruct Hinv as [Hp Hc]. split; [|discriminate].
    cbn [pkgs]. intros r Hr. apply in_app_or in Hr.
    destruct Hr as [Hr | [<- | []]]; [now apply Hp|].
    now apply Hc.
Qed.

Lemma fold_parse_line_inv (L ls : list std_string) (st : parser_state) :
  incl ls L -> parser_inv L st -> parser_inv L (fold_left parse_line ls st).
Proof.
  revert st. induction ls as [|line ls IH]; intros st Hincl Hinv; [exact Hinv|].
  simpl. apply IH.
  - intros x Hx. apply Hincl. now right.
  - apply parse_line_inv; [apply Hincl; now left | exact Hinv].
Qed.

(** C1, as the code has it: the repository and the name of every emitted
    record are what precedes and what follows the first slash of the first
    word of a line of the input; the repository is empty exactly when that
    word starts with the slash, the name exactly when it ends with it. *)
Theorem emitted_record_repo_and_name (output : std_string) (r : PackageInfo) :
  In r (parse_yay_search output) ->
  exists line word rest pos,
    In line (getlines output) /\
    extract_word line = Some (word, rest) /\
    find_char "/" word = Some pos /\
    repo r = firstn pos word /\
    name r = skipn (pos + 1) word /\
    (repo r = [] <-> pos = 0) /\
    (name r = [] <-> pos + 1 = length word).
Proof.
  rewrite parse_yay_search_fold. intros Hr.
  assert (Hinv : parser_inv (getlines output)
                   (fold_left parse_line (getlines output) parser_init)).
  { apply fold_parse_line_inv.
    - apply incl_refl.
    - split; [intros ? [] | discriminate]. }
  destruct Hinv as [Hp _]. exact (Hp r Hr).
Qed.

Lemma emitted_record_repo_and_name_witness :
  exists line word rest pos,
    In line (getlines sample_listing) /\
    extract_word line = Some (word, rest) /\
    find_char "/" word = Some pos /\
    lit "core" = firstn pos word /\
    lit "foo" = skipn (pos + 1) word /\
    (lit "core" = [] <-> pos = 0) /\
    (lit "foo" = [] <-> pos + 1 = length word).
Proof.
  apply (emitted_record_repo_and_name sample_listing
           {| repo := lit "core"; name := lit "foo"; version := lit "1.0-1";
              description := lit "A sample package"; installed := false |}).
  vm_compute. left. reflexivity.
Defined.

(** C1 as stated fails: a first word that starts with the slash gives an
    emitted record with an empty repository, one that ends with the slash
    a record with an empty name. *)
Lemma emitted_record_with_empty_field :
  (exists r,
     In r (parse_yay_search (lit "/foo 1.0" ++ NL :: lit " text" ++ [NL])) /\
     repo r = []) /\
  (exists r,
     In r (parse_yay_search (lit "foo/ 1.0" ++ NL :: lit " text" ++ [NL])) /\
     name r = []).
Proof.
  split; eexists; (split; [vm_compute; left; reflexivity | reflexivity]).
Qed.

(** ** The process runner *)

Section RunnerProperties.
Context {host : Host}.

(** C8: when [popen] yields no pipe, [run_command] returns the empty
    text and [run_command_status] returns false. *)
Theorem spawn_failure_is_soft (cmd : std_string) (w : World) :
  os_popen w cmd mode_r = None ->
  run_command cmd w = ([], snd (popen cmd mode_r w)) /\
  run_command_status cmd w = (false, snd (popen cmd mode_r w)).
Proof.
  intros Hnone. unfold run_command, run_command_status, bind, popen.
  rewrite Hnone. split; reflexivity.
Qed.

(** C10: with an empty password [run_sudo_with_password] returns false
    and leaves the world as it was: nothing spawned, nothing written. *)
Theorem sudo_with_empty_password (cmd : std_string) (w : World) :
  run_sudo_with_password [] cmd w = (false, w).
Proof. reflexivity. Qed.

End RunnerProperties.

Lemma spawn_failure_is_soft_witness :
  @run_command host_no_spawn (lit "yay -Ss vim") world0 =
    ([], snd (@popen host_no_spawn (lit "yay -Ss vim") mode_r world0)) /\
  @run_command_status host_no_spawn (lit "yay -Ss vim") world0 =
    (false, snd (@popen host_no_spawn (lit "yay -Ss vim") mode_r world0)).
Proof.
  apply (@spawn_failure_is_soft host_no_spawn (lit "yay -Ss vim") world0).
  reflexivity.
Defined.

(** ** The search pipeline *)

Section SearchProperties.
Context {host : Host}.

Lemma populate_loop_rows (pkgs : list PackageInfo) (total count : nat)
      (w : World) :
  results_list (snd (populate_loop pkgs total count w)) =
  results_list w ++ pkgs.
Proof.
  revert total count w.
  induction pkgs as [|pkg pkgs IH]; intros total count w; simpl.
  - now rewrite app_nil_r.
  - unfold bind, insert_row. rewrite IH. simpl.
    now rewrite <- app_assoc.
Qed.

Lemma populate_results_rows (pkgs : list PackageInfo) (w : World) :
  results_list (snd (populate_results pkgs w)) = pkgs.
Proof.
  unfold populate_results, bind, clear_results.
  match goal with |- context [populate_loop pkgs 0 0 ?w1] =>
    pose proof (populate_loop_rows pkgs 0 0 w1) as H;
    destruct (populate_loop pkgs 0 0 w1) as [counts w2] end.
  simpl in *. exact H.
Qed.

Lemma resolve_installed_length (pkgs : list PackageInfo) (w : World) :
  length (fst (resolve_installed pkgs w)) = length pkgs.
Proof.
  revert w. induction pkgs as [|pkg pkgs IH]; intros w; [reflexivity|].
  simpl. unfold bind.
  destruct (is_package_installed (name pkg) w) as [b w1].
  specialize (IH w1).
  destruct (resolve_installed pkgs w1) as [rest w2].
  simpl in *. now rewrite IH.
Qed.

(** The record at position [i] gets the answer [is_package_installed]
    gives in the world left by the records before it. *)
Lemma resolve_installed_nth (pkgs : list PackageInfo) (w : World)
      (i : nat) (p : PackageInfo) :
  nth_error pkgs i = Some p ->
  nth_error (fst (resolve_installed pkgs w)) i =
  Some (set_installed p
          (fst (is_package_installed (name p)
                  (snd (resolve_installed (firstn i pkgs) w))))).
Proof.
  revert w i. induction pkgs as [|pkg pkgs IH]; intros w i Hnth.
  - destruct i; discriminate.
  - destruct i as [|i]; simpl in Hnth.
    + injection Hnth as ->. simpl. unfold bind, ret.
      destruct (is_package_installed (name p) w) as [b w1].
      destruct (resolve_installed pkgs w1) as [rest w2].
      simpl. destruct b; reflexivity.
    + specialize (IH (snd (is_package_installed (name pkg) w)) i Hnth).
      simpl. unfold bind, ret.
      destruct (is_package_installed (name pkg) w) as [b w1].
      simpl in IH.
      destruct (resolve_installed pkgs w1) as [rest w2].
      destruct (resolve_installed (firstn i pkgs) w1) as [rest' w2'].
      simpl in *. exact IH.
Qed.

Lemma perform_search_rows (query : std_string) (w : World) :
  query <> [] ->
  results_list (snd (perform_search query w)) =
  fst (resolve_installed
         (parse_yay_search
            (strip_ansi_and_osc
               (fst (run_command (lit "yay -Ss " ++ query) w))))
         (snd (run_command (lit "yay -Ss " ++ query) w))).
Proof.
  destruct query as [|c query]; [congruence|]. intros _.
  unfold perform_search, bind.
  destruct (run_command (lit "yay -Ss " ++ c :: query) w) as [raw w1].
  cbn [fst snd].
  destruct (resolve_installed (parse_yay_search (strip_ansi_and_osc raw)) w1)
    as [final w2].
  pose proof (populate_results_rows final w2) as H.
  destruct (populate_results final w2) as [u w3].
  cbn [fst snd] in *. destruct final; exact H.
Qed.

(** Handlers run by the event loop may spawn commands of their own; they
    cannot take back a call that was made. *)
Hypothesis gtk_events_keep_log : forall w, extends w (gtk_events w).

Lemma extends_refl (w : World) : extends w w.
Proof. exists []. now rewrite app_nil_r. Qed.

Lemma extends_trans (w1 w2 w3 : World) :
  extends w1 w2 -> extends w2 w3 -> extends w1 w3.
Proof.
  intros [l1 E1] [l2 E2]. exists (l1 ++ l2).
  now rewrite E2, E1, app_assoc.
Qed.

Lemma capture_loop_extends (chunks : list std_string) (result : std_string)
      (w : World) :
  extends w (snd (capture_loop chunks result w)).
Proof.
  revert result w. induction chunks as [|buffer chunks IH]; intros result w.
  - apply extends_refl.
  - simpl. unfold bind, gtk_drain.
    eapply extends_trans; [apply gtk_events_keep_log | apply IH].
Qed.

Lemma discard_loop_extends (chunks : list std_string) (w : World) :
  extends w (snd (discard_loop chunks w)).
Proof.
  revert w. induction chunks as [|buffer chunks IH]; intros w.
  - apply extends_refl.
  - simpl. unfold bind, gtk_drain.
    eapply extends_trans; [apply gtk_events_keep_log | apply IH].
Qed.

(** [run_command] logs its command first. *)
Lemma run_command_log (cmd : std_string) (w : World) :
  exists l,
    popen_calls (snd (run_command cmd w)) =
    popen_calls w ++ (cmd, mode_r) :: l.
Proof.
  unfold run_command, bind, popen.
  destruct (os_popen w cmd mode_r) as [ch|].
  - match goal with |- context [capture_loop _ _ ?w1] =>
      destruct (capture_loop_extends (child_output ch) [] w1) as [l E] end.
    exists l. rewrite E. simpl. now rewrite <- app_assoc.
  - exists []. reflexivity.
Qed.

Lemma run_command_status_extends (cmd : std_string) (w : World) :
  extends w (snd (run_command_status cmd w)).
Proof.
  unfold run_command_status, bind, popen.
  destruct (os_popen w cmd mode_r) as [ch|].
  - match goal with |- context [discard_loop _ ?w1] =>
      pose proof (discard_loop_extends (child_output ch) w1) as H;
      destruct (discard_loop (child_output ch) w1) as [u w2] end.
    eapply extends_trans; [|exact H]. now exists [(cmd, mode_r)].
  - now exists [(cmd, mode_r)].
Qed.

Lemma resolve_installed_extends (pkgs : list PackageInfo) (w : World) :
  extends w (snd (resolve_installed pkgs w)).
Proof.
  revert w. induction pkgs as [|pkg pkgs IH]; intros w.
  - apply extends_refl.
  - simpl. unfold bind, is_package_installed.
    match goal with |- context [run_command_status ?cmd w] =>
      pose proof (run_command_status_extends cmd w) as H1;
      destruct (run_command_status cmd w) as [b w1] end.
    specialize (IH w1).
    destruct (resolve_installed pkgs w1) as [rest w2].
    eapply extends_trans; [exact H1 | exact IH].
Qed.

Lemma populate_loop_calls (pkgs : list PackageInfo) (total count : nat)
      (w : World) :
  popen_calls (snd (populate_loop pkgs total count w)) = popen_calls w.
Proof.
  revert total count w.
  induction pkgs as [|pkg pkgs IH]; intros total count w; [reflexivity|].
  simpl. unfold bind, insert_row. now rewrite IH.
Qed.

Lemma populate_results_calls (pkgs : list PackageInfo) (w : World) :
  popen_calls (snd (populate_results pkgs w)) = popen_calls w.
Proof.
  unfold populate_results, bind, clear_results.
  match goal with |- context [populate_loop pkgs 0 0 ?w1] =>
    pose proof (populate_loop_calls pkgs 0 0 w1) as H;
    destruct (populate_loop pkgs 0 0 w1) as [counts w2] end.
  simpl in *. exact H.
Qed.

(** C2, as the code has it: on the empty query [perform_search] clears
    the result list, resets the status text and returns with no subprocess
    spawned; on every other query, one made of whitespace included, it
    spawns [yay -Ss] with that query. *)
Theorem search_spawns_unless_query_empty :
  (forall w,
     perform_search [] w =
     (tt, {| popen_calls := popen_calls w;
             stdin_writes := stdin_writes w;
             results_list := [];
             status_label :=
               match status_label w with
               | Some _ => Some (lit "Ready. Enter a search term.")
               | None => None
               end |})) /\
  (forall query w,
     query <> [] ->
     exists l,
       popen_calls (snd (perform_search query w)) =
       popen_calls w ++ (lit "yay -Ss " ++ query, mode_r) :: l).
Proof.
  split; [reflexivity|].
  intros query w Hq. destruct query as [|c query]; [congruence|].
  unfold perform_search, bind.
  destruct (run_command_log (lit "yay -Ss " ++ c :: query) w) as [l1 E1].
  destruct (run_command (lit "yay -Ss " ++ c :: query) w) as [raw w1].
  pose proof (resolve_installed_extends
                (parse_yay_search (strip_ansi_and_osc raw)) w1) as [l2 E2].
  destruct (resolve_installed (parse_yay_search (strip_ansi_and_osc raw)) w1)
    as [final w2].
  pose proof (populate_results_calls final w2) as E3.
  destruct (populate_results final w2) as [u w3].
  cbn [fst snd] in *.
  exists (l1 ++ l2).
  assert (E : popen_calls w3 =
              popen_calls w ++ (lit "yay -Ss " ++ c :: query, mode_r) :: l1 ++ l2)
    by (rewrite E3, E2, E1, <- app_assoc; reflexivity).
  destruct final; exact E.
Qed.

(** C6: the list [perform_search] displays has one record per parsed
    record, equal to it except that [installed] is the answer of
    [is_package_installed] for its name, whatever the parser guessed. *)
Theorem resolver_overwrites_installed (query : std_string) (w : World) :
  query <> [] ->
  let raw := fst (run_command (lit "yay -Ss " ++ query) w) in
  let w1 := snd (run_command (lit "yay -Ss " ++ query) w) in
  let parsed := parse_yay_search (strip_ansi_and_osc raw) in
  let final := results_list (snd (perform_search query w)) in
  length final = length parsed /\
  forall i p,
    nth_error parsed i = Some p ->
    let wi := snd (resolve_installed (firstn i parsed) w1) in
    let b := fst (is_package_installed (name p) wi) in
    nth_error final i = Some (set_installed p b) /\
    (b = false -> option_map installed (nth_error final i) = Some false) /\
    (b = true -> option_map installed (nth_error final i) = Some true).
Proof.
  intros Hq raw w1 parsed final.
  assert (Hfinal : final = fst (resolve_installed parsed w1))
    by (apply perform_search_rows; exact Hq).
  split.
  - rewrite Hfinal. apply resolve_installed_length.
  - intros i p Hnth wi b.
    assert (E : nth_error final i = Some (set_installed p b))
      by (rewrite Hfinal; apply resolve_installed_nth; exact Hnth).
    rewrite E. split; [reflexivity|]. simpl. split; congruence.
Qed.

End SearchProperties.

Lemma host_sample_keeps_log :
  forall w, extends w (@gtk_events host_sample w).
Proof. intros w. exists []. simpl. now rewrite app_nil_r. Defined.

Lemma search_spawns_unless_query_empty_witness :
  exists l,
    popen_calls (snd (@perform_search host_sample (lit " ") world0)) =
    popen_calls world0 ++ (lit "yay -Ss " ++ lit " ", mode_r) :: l.
Proof.
  destruct (@search_spawns_unless_query_empty host_sample host_sample_keeps_log)
    as [_ H].
  apply (H (lit " ") world0). discriminate.
Defined.

(** C2 as stated fails: a query of one space is handed to [yay], and what
    [yay] prints for it is displayed. *)
Lemma whitespace_query_is_searched :
  forallb isspace (lit " ") = true /\
  popen_calls (snd (@perform_search host_sample (lit " ") world0)) <> [] /\
  hd_error (popen_calls (snd (@perform_search host_sample (lit " ") world0))) =
    Some (lit "yay -Ss  ", mode_r) /\
  length (results_list (snd (@perform_search host_sample (lit " ") world0))) = 2.
Proof.
  split; [reflexivity|]. split; [vm_compute; discriminate|].
  split; vm_compute; reflexivity.
Qed.

Lemma resolver_overwrites_installed_witness :
  let bar :=
    {| repo := lit "extra"; name := lit "bar"; version := lit "2.0-1";
       description := lit "Another package"; installed := true |} in
  nth_error
    (results_list (snd (@perform_search host_sample (lit "foo") world0))) 1 =
  Some (set_installed bar false).
Proof.
  intros bar.
  destruct (@resolver_overwrites_installed host_sample (lit "foo") world0)
    as [_ H]; [discriminate|].
  destruct (H 1 bar) as [E _]; [vm_compute; reflexivity|].
  exact E.
Defined.

(** * Further properties *)

(** ** The stripper, sequence by sequence *)

Lemma csi_end_step (input : std_string) (j : nat) :
  csi_end input j =
  if j <? length input then
    if is_csi_final (char_at input j) then j + 1 else csi_end input (j + 1)
  else j.
Proof.
  funelim (csi_end input j).
  - destruct (Nat.ltb_spec j (length input)); [reflexivity | lia].
  - destruct (Nat.ltb_spec j (length input)); [lia | reflexivity].
Qed.

Lemma osc_end_step (input : std_string) (j : nat) :
  osc_end input j =
  if j <? length input then
    if Ascii.eqb (char_at input j) BEL then j + 1
    else if Ascii.eqb (char_at input j) ESC
            && (j + 1 <? length input)
            && Ascii.eqb (char_at input (j + 1)) "\"
    then j + 2
    else osc_end input (j + 1)
  else j.
Proof.
  funelim (osc_end input j).
  - destruct (Nat.ltb_spec j (length input)); [reflexivity | lia].
  - destruct (Nat.ltb_spec j (length input)); [lia | reflexivity].
Qed.

Lemma strip_loop_step (input : std_string) (i : nat) (out : std_string) :
  strip_loop input i out =
  if i <? length input then
    if Ascii.eqb (char_at input i) ESC then
      if length input <=? i + 1 then strip_loop input (i + 1) out
      else if Ascii.eqb (char_at input (i + 1)) "[" then
        strip_loop input (csi_end input (i + 2)) out
      else if Ascii.eqb (char_at input (i + 1)) "]" then
        strip_loop input (osc_end input (i + 2)) out
      else strip_loop input (i + 1) out
    else strip_loop input (i + 1) (out ++ [char_at input i])
  else out.
Proof.
  funelim (strip_loop input i out);
    repeat match goal with
           | H : Ascii.eqb _ _ = _ |- _ => rewrite H; clear H
           end;
    destruct (Nat.ltb_spec i (length input)); try lia; try reflexivity;
    destruct (Nat.leb_spec (length input) (i + 1)); try lia; reflexivity.
Qed.

Lemma char_at_shift (a s : std_string) (i : nat) :
  char_at (a ++ s) (length a + i) = char_at s i.
Proof. unfold char_at. apply app_nth2_plus. Qed.

Lemma csi_end_shift (a s : std_string) (j : nat) :
  csi_end (a ++ s) (length a + j) = length a + csi_end s j.
Proof.
  funelim (csi_end s j); rewrite csi_end_step, length_app, char_at_shift.
  - destruct (Nat.ltb_spec (length a + j) (length a + length input)); [|lia].
    destruct (is_csi_final (char_at input j)); [lia|].
    replace (length a + j + 1) with (length a + (j + 1)) by lia.
    auto.
  - destruct (Nat.ltb_spec (length a + j) (length a + length input)); lia.
Qed.

Lemma osc_end_shift (a s : std_string) (j : nat) :
  osc_end (a ++ s) (length a + j) = length a + osc_end s j.
Proof.
  funelim (osc_end s j); rewrite osc_end_step, length_app, char_at_shift.
  - destruct (Nat.ltb_spec (length a + j) (length a + length input)); [|lia].
    destruct (Ascii.eqb (char_at input j) BEL); [lia|].
    replace (length a + j + 1) with (length a + (j + 1)) by lia.
    rewrite char_at_shift.
    replace (length a + (j + 1) <? length a + length input)
      with (j + 1 <? length input)
      by (destruct (Nat.ltb_spec (j + 1) (length input));
          destruct (Nat.ltb_spec (length a + (j + 1)) (length a + length input));
          (reflexivity || lia)).
    destruct (_ && _); [lia | auto].
  - destruct (Nat.ltb_spec (length a + j) (length a + length input)); lia.
Qed.

Lemma strip_loop_shift (a s : std_string) (i : nat) (out : std_string) :
  strip_loop (a ++ s) (length a + i) out = strip_loop s i out.
Proof.
  funelim (strip_loop s i out);
    rewrite strip_loop_step, length_app, char_at_shift;
    replace (length a + i + 1) with (length a + (i + 1)) by lia;
    replace (length a + i + 2) with (length a + (i + 2)) by lia;
    rewrite ?char_at_shift, ?csi_end_shift, ?osc_end_shift;
    repeat match goal with
           | H : Ascii.eqb _ _ = _ |- _ => rewrite H; clear H
           end;
    destruct (Nat.ltb_spec (length a + i) (length a + length input));
    try lia; try reflexivity; auto;
    destruct (Nat.leb_spec (length a + length input) (length a + (i + 1)));
    try lia; auto.
Qed.

(** The text produced so far is only ever extended. *)
Lemma strip_loop_acc (n : nat) :
  forall (input : std_string) (i : nat) (out : std_string),
    length input - i <= n ->
    strip_loop input i out = out ++ strip_loop input i [].
Proof.
  induction n as [|n IH]; intros input i out Hn;
    rewrite (strip_loop_step input i out), (strip_loop_step input i []);
    destruct (Nat.ltb_spec i (length input)); try lia;
    try (now rewrite app_nil_r).
  pose proof (csi_end_ge input (i + 2)).
  pose proof (osc_end_ge input (i + 2)).
  destruct (Ascii.eqb (char_at input i) ESC).
  - destruct (Nat.leb_spec (length input) (i + 1)); [apply IH; lia|].
    destruct (Ascii.eqb (char_at input (i + 1)) "["); [apply IH; lia|].
    destruct (Ascii.eqb (char_at input (i + 1)) "]"); apply IH; lia.
  - rewrite (IH input (i + 1) (out ++ _)) by lia.
    rewrite (IH input (i + 1) ([] ++ _)) by lia.
    now rewrite <- app_assoc.
Qed.

(** From position [length a] on, the loop depends on the rest only. *)
Lemma strip_loop_suffix (a s out : std_string) :
  strip_loop (a ++ s) (length a) out = out ++ strip_ansi_and_osc s.
Proof.
  rewrite (strip_loop_acc (length (a ++ s)) (a ++ s) (length a) out) by lia.
  replace (length a) with (length a + 0) at 1 by lia.
  now rewrite strip_loop_shift.
Qed.

Lemma strip_nil : strip_ansi_and_osc [] = [].
Proof. reflexivity. Qed.

Lemma strip_cons_plain (c : ascii) (s : std_string) :
  c <> ESC -> strip_ansi_and_osc (c :: s) = c :: strip_ansi_and_osc s.
Proof.
  intros Hc. apply Ascii.eqb_neq in Hc.
  unfold strip_ansi_and_osc at 1. rewrite strip_loop_step.
  cbn [length char_at nth Nat.ltb Nat.leb]. rewrite Hc.
  apply (strip_loop_suffix [c] s ([] ++ [c])).
Qed.

Lemma strip_lone_esc : strip_ansi_and_osc [ESC] = [].
Proof. reflexivity. Qed.

Lemma strip_esc_other (c : ascii) (s : std_string) :
  c <> "["%char -> c <> "]"%char ->
  strip_ansi_and_osc (ESC :: c :: s) = strip_ansi_and_osc (c :: s).
Proof.
  intros H1 H2. apply Ascii.eqb_neq in H1. apply Ascii.eqb_neq in H2.
  unfold strip_ansi_and_osc at 1. rewrite strip_loop_step.
  cbn [length char_at nth Nat.ltb Nat.leb Nat.add]. rewrite Ascii.eqb_refl.
  rewrite H1, H2.
  apply (strip_loop_suffix [ESC] (c :: s) []).
Qed.

Lemma csi_end_le (input : std_string) (j : nat) :
  j <= length input -> csi_end input j <= length input.
Proof.
  funelim (csi_end input j); intros Hj; [|lia].
  destruct (is_csi_final _); [lia|].
  match goal with IH : _ -> csi_end _ _ <= _ |- _ => apply IH end. lia.
Qed.

Lemma osc_end_le (input : std_string) (j : nat) :
  j <= length input -> osc_end input j <= length input.
Proof.
  funelim (osc_end input j); intros Hj; [|lia].
  destruct (Ascii.eqb _ BEL); [lia|].
  destruct (Ascii.eqb _ ESC); simpl.
  - destruct (Nat.ltb_spec (j + 1) (length input)); simpl.
    + destruct (Ascii.eqb _ "\"); [lia|].
      match goal with IH : _ -> osc_end _ _ <= _ |- _ => apply IH end. lia.
    + match goal with IH : _ -> osc_end _ _ <= _ |- _ => apply IH end. lia.
  - match goal with IH : _ -> osc_end _ _ <= _ |- _ => apply IH end. lia.
Qed.

(** The index the CSI loop stops at, read on the text itself. *)
Lemma csi_end_rest (s : std_string) : skipn (csi_end s 0) s = csi_rest s.
Proof.
  induction s as [|d s IH]; [reflexivity|].
  rewrite csi_end_step. cbn [length Nat.ltb Nat.leb char_at nth csi_rest].
  destruct (is_csi_final d); [reflexivity|].
  change (csi_end (d :: s) (0 + 1))
    with (csi_end ([d] ++ s) (length [d] + 0)).
  rewrite (csi_end_shift [d] s 0). simpl. exact IH.
Qed.

Lemma osc_end_rest (s : std_string) : skipn (osc_end s 0) s = osc_rest s.
Proof.
  induction s as [|d s IH]; [reflexivity|].
  rewrite osc_end_step. cbn [length Nat.ltb Nat.leb char_at nth osc_rest].
  destruct (Ascii.eqb d BEL); [reflexivity|].
  change (osc_end (d :: s) (0 + 1))
    with (osc_end ([d] ++ s) (length [d] + 0)).
  rewrite (osc_end_shift [d] s 0).
  destruct s as [|e s].
  - destruct (_ && _ && _); [reflexivity|].
    simpl. now destruct (osc_end [] 0).
  - cbn [length Nat.ltb Nat.leb Nat.add nth]. rewrite andb_true_r.
    destruct (Ascii.eqb d ESC && Ascii.eqb e "\"); [reflexivity|].
    simpl. exact IH.
Qed.

Lemma strip_loop_at (input : std_string) (k : nat) :
  k <= length input ->
  strip_loop input k [] = strip_ansi_and_osc (skipn k input).
Proof.
  intros Hk.
  pose proof (strip_loop_suffix (firstn k input) (skipn k input) []) as E.
  rewrite firstn_skipn, length_firstn in E.
  replace (Nat.min k (length input)) with k in E by lia.
  exact E.
Qed.

Lemma strip_csi_seq (s : std_string) :
  strip_ansi_and_osc (ESC :: "["%char :: s) = strip_ansi_and_osc (csi_rest s).
Proof.
  unfold strip_ansi_and_osc at 1. rewrite strip_loop_step.
  cbn [length char_at nth Nat.ltb Nat.leb Nat.add]. rewrite Ascii.eqb_refl.
  rewrite Ascii.eqb_refl.
  change (csi_end (ESC :: "["%char :: s) 2)
    with (csi_end ([ESC; "["%char] ++ s) (length [ESC; "["%char] + 0)).
  rewrite (csi_end_shift [ESC; "["%char] s 0).
  pose proof (csi_end_le s 0 (Nat.le_0_l _)).
  rewrite strip_loop_at by (simpl; lia).
  simpl. now rewrite csi_end_rest.
Qed.

Lemma strip_osc_seq (s : std_string) :
  strip_ansi_and_osc (ESC :: "]"%char :: s) = strip_ansi_and_osc (osc_rest s).
Proof.
  unfold strip_ansi_and_osc at 1. rewrite strip_loop_step.
  cbn [length char_at nth Nat.ltb Nat.leb Nat.add]. rewrite Ascii.eqb_refl.
  replace (Ascii.eqb "]" "[") with false by reflexivity.
  rewrite Ascii.eqb_refl.
  change (osc_end (ESC :: "]"%char :: s) 2)
    with (osc_end ([ESC; "]"%char] ++ s) (length [ESC; "]"%char] + 0)).
  rewrite (osc_end_shift [ESC; "]"%char] s 0).
  pose proof (osc_end_le s 0 (Nat.le_0_l _)).
  rewrite strip_loop_at by (simpl; lia).
  simpl. now rewrite osc_end_rest.
Qed.

Lemma strip_plain_prefix (a b : std_string) :
  ~ In ESC a -> strip_ansi_and_osc (a ++ b) = a ++ strip_ansi_and_osc b.
Proof.
  induction a as [|c a IH]; intros Ha; [reflexivity|].
  simpl. rewrite strip_cons_plain.
  - rewrite IH; [reflexivity|]. intros Hin. apply Ha. now right.
  - intros ->. apply Ha. now left.
Qed.

(** X1: text without ESC passes through unchanged, and a prefix without
    ESC is copied as it is whatever follows it. *)
Theorem strip_keeps_plain_text (a b : std_string) :
  ~ In ESC a ->
  strip_ansi_and_osc a = a /\
  strip_ansi_and_osc (a ++ b) = a ++ strip_ansi_and_osc b.
Proof.
  intros Ha. split; [|now apply strip_plain_prefix].
  rewrite <- (app_nil_r a) at 1. rewrite strip_plain_prefix by assumption.
  now rewrite strip_nil, app_nil_r.
Qed.

Lemma strip_keeps_plain_text_witness :
  strip_ansi_and_osc (lit "core/foo") = lit "core/foo" /\
  strip_ansi_and_osc (lit "core/foo" ++ ESC :: lit "[0m 1.0") =
  lit "core/foo" ++ strip_ansi_and_osc (ESC :: lit "[0m 1.0").
Proof.
  apply (strip_keeps_plain_text (lit "core/foo") (ESC :: lit "[0m 1.0")).
  simpl. intros H.
  repeat (destruct H as [H | H]; [discriminate H|]). exact H.
Defined.

Lemma csi_rest_params (params : std_string) (f : ascii) (b : std_string) :
  forallb (fun d => negb (is_csi_final d)) params = true ->
  is_csi_final f = true ->
  csi_rest (params ++ f :: b) = b.
Proof.
  intros Hp Hf. induction params as [|d params IH]; simpl.
  - now rewrite Hf.
  - simpl in Hp. apply andb_prop in Hp. destruct Hp as [Hd Hp].
    apply negb_true_iff in Hd. rewrite Hd. now apply IH.
Qed.

Lemma csi_rest_open (params : std_string) :
  forallb (fun d => negb (is_csi_final d)) params = true ->
  csi_rest params = [].
Proof.
  induction params as [|d params IH]; simpl; intros Hp; [reflexivity|].
  apply andb_prop in Hp. destruct Hp as [Hd Hp].
  apply negb_true_iff in Hd. rewrite Hd. now apply IH.
Qed.

(** X2: a CSI sequence, ESC and an opening bracket up to the first byte
    in the range from the at sign to the tilde, is removed whole and the
    text around it is left as it is. *)
Theorem strip_removes_csi (a params : std_string) (f : ascii) (b : std_string) :
  ~ In ESC a ->
  forallb (fun d => negb (is_csi_final d)) params = true ->
  is_csi_final f = true ->
  strip_ansi_and_osc (a ++ ESC :: "["%char :: params ++ f :: b) =
  a ++ strip_ansi_and_osc b.
Proof.
  intros Ha Hp Hf.
  rewrite strip_plain_prefix by assumption.
  now rewrite strip_csi_seq, csi_rest_params.
Qed.

Lemma strip_removes_csi_witness :
  strip_ansi_and_osc (lit "ab" ++ ESC :: "["%char :: lit "1;31" ++ "m"%char :: lit "cd") =
  lit "ab" ++ strip_ansi_and_osc (lit "cd").
Proof.
  apply (strip_removes_csi (lit "ab") (lit "1;31") "m" (lit "cd"));
    [|reflexivity|reflexivity].
  simpl. intros H.
  repeat (destruct H as [H | H]; [discriminate H|]). exact H.
Defined.

(** X3: a CSI sequence with no final byte swallows the rest of the
    input. *)
Theorem strip_unterminated_csi (a params : std_string) :
  ~ In ESC a ->
  forallb (fun d => negb (is_csi_final d)) params = true ->
  strip_ansi_and_osc (a ++ ESC :: "["%char :: params) = a.
Proof.
  intros Ha Hp.
  rewrite strip_plain_prefix by assumption.
  rewrite strip_csi_seq, csi_rest_open by assumption.
  now rewrite strip_nil, app_nil_r.
Qed.

Lemma strip_unterminated_csi_witness :
  strip_ansi_and_osc (lit "ab" ++ ESC :: "["%char :: lit "1;31") = lit "ab".
Proof.
  apply (strip_unterminated_csi (lit "ab") (lit "1;31")); [|reflexivity].
  simpl. intros H.
  repeat (destruct H as [H | H]; [discriminate H|]). exact H.
Defined.

Lemma osc_rest_bel (body b : std_string) :
  forallb (fun d => negb (Ascii.eqb d BEL) && negb (Ascii.eqb d ESC)) body = true ->
  osc_rest (body ++ BEL :: b) = b.
Proof.
  induction body as [|d body IH]; simpl; intros Hb.
  - reflexivity.
  - apply andb_prop in Hb. destruct Hb as [Hd Hb].
    apply andb_prop in Hd. destruct Hd as [Hd1 Hd2].
    apply negb_true_iff in Hd1. apply negb_true_iff in Hd2.
    rewrite Hd1, Hd2. simpl.
    destruct (body ++ BEL :: b) eqn:E; now apply IH.
Qed.

Lemma osc_rest_st (body b : std_string) :
  forallb (fun d => negb (Ascii.eqb d BEL) && negb (Ascii.eqb d ESC)) body = true ->
  osc_rest (body ++ ESC :: "\"%char :: b) = b.
Proof.
  induction body as [|d body IH]; simpl; intros Hb.
  - reflexivity.
  - apply andb_prop in Hb. destruct Hb as [Hd Hb].
    apply andb_prop in Hd. destruct Hd as [Hd1 Hd2].
    apply negb_true_iff in Hd1. apply negb_true_iff in Hd2.
    rewrite Hd1, Hd2. simpl.
    destruct (body ++ ESC :: "\"%char :: b) eqn:E; now apply IH.
Qed.

(** X4: an OSC sequence, ESC and a closing bracket up to a BEL or up to
    ESC and a backslash, is removed whole, terminator included, and the
    text around it is left as it is. *)
Theorem strip_removes_osc (a body b : std_string) :
  ~ In ESC a ->
  forallb (fun d => negb (Ascii.eqb d BEL) && negb (Ascii.eqb d ESC)) body = true ->
  strip_ansi_and_osc (a ++ ESC :: "]"%char :: body ++ BEL :: b) =
    a ++ strip_ansi_and_osc b /\
  strip_ansi_and_osc (a ++ ESC :: "]"%char :: body ++ ESC :: "\"%char :: b) =
    a ++ strip_ansi_and_osc b.
Proof.
  intros Ha Hb. split; rewrite strip_plain_prefix by assumption;
    rewrite strip_osc_seq.
  - now rewrite osc_rest_bel.
  - now rewrite osc_rest_st.
Qed.

Lemma strip_removes_osc_witness :
  strip_ansi_and_osc (lit "ab" ++ ESC :: "]"%char :: lit "8;;http://x" ++ BEL :: lit "cd") =
    lit "ab" ++ strip_ansi_and_osc (lit "cd") /\
  strip_ansi_and_osc
    (lit "ab" ++ ESC :: "]"%char :: lit "8;;http://x" ++ ESC :: "\"%char :: lit "cd") =
    lit "ab" ++ strip_ansi_and_osc (lit "cd").
Proof.
  apply (strip_removes_osc (lit "ab") (lit "8;;http://x") (lit "cd"));
    [|reflexivity].
  simpl. intros H.
  repeat (destruct H as [H | H]; [discriminate H|]). exact H.
Defined.

(** X5: an ESC followed by anything but a bracket is dropped alone, the
    character after it is read again as ordinary input; an ESC that ends
    the input is dropped. *)
Theorem strip_drops_single_esc (a : std_string) (c : ascii) (b : std_string) :
  ~ In ESC a -> c <> "["%char -> c <> "]"%char ->
  strip_ansi_and_osc (a ++ ESC :: c :: b) = a ++ strip_ansi_and_osc (c :: b) /\
  strip_ansi_and_osc (a ++ [ESC]) = a.
Proof.
  intros Ha H1 H2. split; rewrite strip_plain_prefix by assumption.
  - now rewrite strip_esc_other.
  - now rewrite strip_lone_esc, app_nil_r.
Qed.

Lemma strip_drops_single_esc_witness :
  strip_ansi_and_osc (lit "ab" ++ ESC :: "c"%char :: lit "d") =
    lit "ab" ++ strip_ansi_and_osc ("c"%char :: lit "d") /\
  strip_ansi_and_osc (lit "ab" ++ [ESC]) = lit "ab".
Proof.
  apply (strip_drops_single_esc (lit "ab") "c" (lit "d"));
    [|discriminate|discriminate].
  simpl. intros H.
  repeat (destruct H as [H | H]; [discriminate H|]). exact H.
Defined.

Lemma subseq_refl (s : std_string) : subseq s s.
Proof. induction s; constructor; assumption. Qed.

Lemma subseq_nil_l (t : std_string) : subseq [] t.
Proof. induction t; constructor; assumption. Qed.

Lemma subseq_skip_prefix (p s t : std_string) :
  subseq s t -> subseq s (p ++ t).
Proof. intros H. induction p; simpl; [assumption | now constructor]. Qed.

Lemma subseq_length (s t : std_string) : subseq s t -> length s <= length t.
Proof. induction 1; simpl; lia. Qed.

Lemma csi_rest_suffix (s : std_string) : exists p, s = p ++ csi_rest s.
Proof.
  induction s as [|d s [p IH]]; [now exists []|]. simpl.
  destruct (is_csi_final d); [now exists [d]|].
  exists (d :: p). simpl. now rewrite <- IH.
Qed.

Lemma osc_rest_suffix (s : std_string) : exists p, s = p ++ osc_rest s.
Proof.
  induction s as [|d s [p IH]]; [now exists []|]. simpl.
  destruct (Ascii.eqb d BEL); [now exists [d]|].
  destruct s as [|e s]; [now exists [d]|].
  destruct (Ascii.eqb d ESC && Ascii.eqb e "\"); [now exists [d; e]|].
  exists (d :: p). change (d :: e :: s = d :: (p ++ osc_rest (e :: s))).
  now f_equal.
Qed.

Lemma strip_subseq_bounded (n : nat) :
  forall x, length x <= n -> subseq (strip_ansi_and_osc x) x.
Proof.
  induction n as [|n IH]; intros x Hn.
  - destruct x; [constructor | simpl in Hn; lia].
  - destruct x as [|c x]; [constructor|]. simpl in Hn.
    destruct (Ascii.eqb_spec c ESC) as [-> | Hc].
    + destruct x as [|d x]; [apply subseq_nil_l|]. simpl in Hn.
      destruct (Ascii.eqb_spec d "["%char) as [-> | H1];
        [|destruct (Ascii.eqb_spec d "]"%char) as [-> | H2]].
      * rewrite strip_csi_seq. destruct (csi_rest_suffix x) as [p E].
        do 2 apply subseq_skip. rewrite E at 2.
        apply subseq_skip_prefix, IH.
        apply (f_equal (@length ascii)) in E. rewrite length_app in E. lia.
      * rewrite strip_osc_seq. destruct (osc_rest_suffix x) as [p E].
        do 2 apply subseq_skip. rewrite E at 2.
        apply subseq_skip_prefix, IH.
        apply (f_equal (@length ascii)) in E. rewrite length_app in E. lia.
      * rewrite strip_esc_other by assumption.
        apply subseq_skip, IH. simpl. lia.
    + rewrite strip_cons_plain by assumption.
      apply subseq_keep, IH. lia.
Qed.

(** X6: the stripper only leaves characters out: its output is the input
    with some characters removed, the others unchanged and in order, so
    it is never longer than the input. *)
Theorem strip_output_is_subsequence (x : std_string) :
  subseq (strip_ansi_and_osc x) x /\
  length (strip_ansi_and_osc x) <= length x.
Proof.
  assert (H : subseq (strip_ansi_and_osc x) x)
    by (apply (strip_subseq_bounded (length x)); lia).
  split; [exact H | now apply subseq_length].
Qed.

(** ** The parser, line by line *)

Lemma getlines_snoc_newline (s : std_string) :
  getlines (s ++ [NL]) = getlines s \/
  getlines (s ++ [NL]) = getlines s ++ [[]].
Proof.
  induction s as [|c s IH].
  - right. simpl. now rewrite getlines_newline, getlines_nil.
  - simpl. destruct (Ascii.eqb_spec c NL) as [-> | Hc].
    + rewrite !getlines_newline. destruct IH as [-> | ->]; [now left | now right].
    + rewrite !getlines_cons by assumption.
      destruct s as [|d s].
      * left. simpl. now rewrite getlines_newline, getlines_nil.
      * pose proof (getlines_nonempty (d :: s)) as Hne.
        destruct (getlines (d :: s)) as [|l ls]; [now elim Hne|].
        destruct IH as [-> | ->]; [now left | now right].
Qed.

(** X7: a newline added at the end of the text does not change what is
    parsed from it. *)
Theorem parse_ignores_final_newline (s : std_string) :
  parse_yay_search (s ++ [NL]) = parse_yay_search s.
Proof.
  rewrite !parse_yay_search_fold.
  destruct (getlines_snoc_newline s) as [-> | ->]; [reflexivity|].
  now rewrite fold_left_app.
Qed.

Lemma invalid_header_step (st : parser_state) (h : std_string) :
  header_line h = true -> valid_header h = false -> parse_line st h = st.
Proof.
  intros Hh Hv. unfold valid_header in Hv. rewrite Hh in Hv. simpl in Hv.
  apply header_line_inv in Hh. destruct Hh as (Hne & Hd & _).
  destruct h as [|c h]; [congruence|].
  unfold parse_line. unfold is_desc_line in Hd. rewrite Hd.
  unfold parse_header.
  destruct (extract_word (c :: h)) as [[repo_name header1]|]; [|reflexivity].
  destruct (extract_word header1) as [[ver header2]|]; [|reflexivity].
  destruct (find_char "/" repo_name); [discriminate | reflexivity].
Qed.

(** X8: a header line that is not accepted, for want of a second word or
    of a slash in the first, is skipped as if it were not there: the
    candidate and the expecting-description flag stay as they were. *)
Theorem rejected_header_is_transparent (pre h rest : std_string) :
  ends_line pre -> header_line h = true -> valid_header h = false ->
  parse_yay_search (pre ++ h ++ NL :: rest) = parse_yay_search (pre ++ rest).
Proof.
  intros Hend Hh Hv.
  destruct (header_line_inv h Hh) as (_ & _ & Hnl).
  rewrite !parse_yay_search_fold, !(getlines_app pre _ Hend).
  rewrite (getlines_line_nl h rest Hnl), !fold_left_app. simpl.
  now rewrite invalid_header_step.
Qed.

Lemma rejected_header_is_transparent_witness :
  parse_yay_search
    (lit "core/foo 1.0-1" ++ NL :: lit "badtoken 1.0" ++ NL :: lit " text" ++ [NL]) =
  parse_yay_search (lit "core/foo 1.0-1" ++ NL :: lit " text" ++ [NL]).
Proof.
  apply (rejected_header_is_transparent (lit "core/foo 1.0-1" ++ [NL])
           (lit "badtoken 1.0") (lit " text" ++ [NL])); reflexivity.
Defined.

Lemma description_line_inv (d : std_string) :
  description_line d = true ->
  is_desc_line d = true /\ existsb (Ascii.eqb NL) d = false.
Proof.
  unfold description_line. intros H. apply andb_prop in H.
  destruct H as [H1 H2]. apply negb_true_iff in H2. now split.
Qed.

Lemma desc_line_idle (st : parser_state) (d : std_string) :
  is_desc_line d = true -> expecting_desc st = false -> parse_line st d = st.
Proof.
  intros Hd He. destruct d as [|c d]; [discriminate|].
  unfold parse_line. unfold is_desc_line in Hd. now rewrite Hd, He.
Qed.

Lemma desc_line_clears_flag (st : parser_state) (d : std_string) :
  is_desc_line d = true -> expecting_desc (parse_line st d) = false.
Proof.
  intros Hd. destruct d as [|c d]; [discriminate|].
  unfold parse_line. unfold is_desc_line in Hd. rewrite Hd.
  destruct (expecting_desc st) eqn:He; [reflexivity | exact He].
Qed.

(** X9: a description line counts only directly after an accepted
    header: one that follows a blank line, or another description line,
    is skipped as if it were not there. *)
Theorem stray_description_is_ignored (pre d1 d2 rest : std_string) :
  ends_line pre -> description_line d1 = true -> description_line d2 = true ->
  parse_yay_search (pre ++ NL :: d2 ++ NL :: rest) =
    parse_yay_search (pre ++ NL :: rest) /\
  parse_yay_search (pre ++ d1 ++ NL :: d2 ++ NL :: rest) =
    parse_yay_search (pre ++ d1 ++ NL :: rest).
Proof.
  intros Hend H1 H2.
  destruct (description_line_inv d1 H1) as [Hd1 Hn1].
  destruct (description_line_inv d2 H2) as [Hd2 Hn2].
  rewrite !parse_yay_search_fold, !(getlines_app pre _ Hend).
  rewrite !getlines_newline, !(getlines_line_nl d1 _ Hn1).
  rewrite !(getlines_line_nl d2 rest Hn2), !fold_left_app.
  split; simpl; rewrite (desc_line_idle _ d2 Hd2); try reflexivity.
  now apply desc_line_clears_flag.
Qed.

Lemma stray_description_is_ignored_witness :
  parse_yay_search
    (lit "core/foo 1.0-1" ++ NL :: NL :: lit " late" ++ NL :: lit "a/b 1" ++ [NL]) =
    parse_yay_search (lit "core/foo 1.0-1" ++ NL :: NL :: lit "a/b 1" ++ [NL]) /\
  parse_yay_search
    (lit "core/foo 1.0-1" ++ NL :: lit " first" ++ NL :: lit " late" ++ NL ::
     lit "a/b 1" ++ [NL]) =
    parse_yay_search
      (lit "core/foo 1.0-1" ++ NL :: lit " first" ++ NL :: lit "a/b 1" ++ [NL]).
Proof.
  apply (stray_description_is_ignored (lit "core/foo 1.0-1" ++ [NL])
           (lit " first") (lit " late") (lit "a/b 1" ++ [NL])); reflexivity.
Defined.

(** ** The parser, on the whole listing *)

Lemma valid_header_not_desc (line : std_string) :
  is_desc_line line = true -> valid_header line = false.
Proof.
  intros Hd. unfold valid_header, header_line.
  destruct line; [reflexivity|]. now rewrite Hd.
Qed.

Lemma getlines_no_newline (s : std_string) :
  Forall (fun l => existsb (Ascii.eqb NL) l = false) (getlines s).
Proof.
  induction s as [|c s IH]; [rewrite getlines_nil; constructor|].
  destruct (Ascii.eqb_spec c NL) as [-> | Hc].
  - rewrite getlines_newline. now constructor.
  - rewrite getlines_cons by assumption.
    assert (Hc' : Ascii.eqb NL c = false) by (apply Ascii.eqb_neq; congruence).
    destruct (getlines s) as [|l ls].
    + constructor; [|constructor]. simpl. now rewrite Hc'.
    + inversion IH as [|? ? Hl Hls]; subst.
      constructor; [|assumption]. simpl. now rewrite Hc', Hl.
Qed.

Lemma parse_line_count (st : parser_state) (line : std_string) :
  existsb (Ascii.eqb NL) line = false ->
  length (pkgs (parse_line st line)) + flag_count (parse_line st line) <=
    length (pkgs st) + flag_count st + (if valid_header line then 1 else 0) /\
  length (pkgs (parse_line st line)) <=
    length (pkgs st) + (if is_desc_line line then 1 else 0).
Proof.
  intros Hnl. destruct (is_desc_line line) eqn:Hd.
  - rewrite (valid_header_not_desc line Hd).
    destruct line as [|c line]; [discriminate|].
    unfold parse_line. unfold is_desc_line in Hd. rewrite Hd.
    unfold flag_count. destruct (expecting_desc st) eqn:He; simpl.
    + rewrite length_app. simpl. lia.
    + rewrite He. lia.
  - destruct line as [|c line].
    + unfold flag_count. simpl. destruct (expecting_desc st); lia.
    + assert (Hh : header_line (c :: line) = true)
        by (unfold header_line; now rewrite Hd, Hnl).
      destruct (valid_header (c :: line)) eqn:Hv.
      * destruct (valid_header_step (c :: line) Hv) as [cur E].
        rewrite E. unfold flag_count. simpl. destruct (expecting_desc st); lia.
      * rewrite invalid_header_step by assumption. lia.
Qed.

Lemma fold_parse_line_count (ls : list std_string) (st : parser_state) :
  Forall (fun l => existsb (Ascii.eqb NL) l = false) ls ->
  length (pkgs (fold_left parse_line ls st)) +
    flag_count (fold_left parse_line ls st) <=
    length (pkgs st) + flag_count st + length (filter valid_header ls) /\
  length (pkgs (fold_left parse_line ls st)) <=
    length (pkgs st) + length (filter is_desc_line ls).
Proof.
  revert st. induction ls as [|line ls IH]; intros st Hnl; [simpl; lia|].
  inversion Hnl as [|? ? Hl Hls]; subst.
  destruct (IH (parse_line st line) Hls) as [IH1 IH2].
  destruct (parse_line_count st line Hl) as [S1 S2].
  simpl. destruct (valid_header line), (is_desc_line line); simpl; lia.
Qed.

(** X10: there are at most as many records as accepted header lines, and
    at most as many as description lines; a text without any line that
    starts with a space or a tab yields no record. *)
Theorem record_count_is_bounded (output : std_string) :
  length (parse_yay_search output) <=
    length (filter valid_header (getlines output)) /\
  length (parse_yay_search output) <=
    length (filter is_desc_line (getlines output)).
Proof.
  rewrite parse_yay_search_fold.
  destruct (fold_parse_line_count (getlines output) parser_init
              (getlines_no_newline output)) as [H1 H2].
  simpl in *. split; lia.
Qed.

(** *** What the fields of a record can hold *)

Lemma until_space_word (s : std_string) :
  no_space (fst (until_space s)) = true.
Proof.
  induction s as [|c s IH]; simpl; [reflexivity|].
  destruct (isspace c) eqn:Hc; [reflexivity|].
  destruct (until_space s) as [t r]. simpl in *. now rewrite Hc.
Qed.

Lemma skipws_head (s : std_string) (c : ascii) (w : std_string) :
  skipws s = c :: w -> isspace c = false.
Proof.
  induction s as [|d s IH]; simpl; [discriminate|].
  destruct (isspace d) eqn:Hd; [exact IH|].
  intros [= -> _]. exact Hd.
Qed.

Lemma extract_word_word (s w r : std_string) :
  extract_word s = Some (w, r) -> w <> [] /\ no_space w = true.
Proof.
  unfold extract_word. destruct (skipws s) as [|c t] eqn:E; [discriminate|].
  pose proof (until_space_word (c :: t)) as Hw.
  apply skipws_head in E. intros H.
  assert (H' : until_space (c :: t) = (w, r)) by congruence.
  rewrite H' in Hw. split; [|exact Hw].
  simpl in H'. rewrite E in H'.
  destruct (until_space t). injection H' as <- _. discriminate.
Qed.

Lemma in_firstn_in (n : nat) (l : std_string) (x : ascii) :
  In x (firstn n l) -> In x l.
Proof.
  intros H. rewrite <- (firstn_skipn n l). apply in_or_app. now left.
Qed.

Lemma in_skipn_in (n : nat) (l : std_string) (x : ascii) :
  In x (skipn n l) -> In x l.
Proof.
  intros H. rewrite <- (firstn_skipn n l). apply in_or_app. now right.
Qed.

Lemma no_space_firstn (n : nat) (w : std_string) :
  no_space w = true -> no_space (firstn n w) = true.
Proof.
  unfold no_space. rewrite !forallb_forall. intros H x Hx.
  apply H. eapply in_firstn_in; eassumption.
Qed.

Lemma no_space_skipn (n : nat) (w : std_string) :
  no_space w = true -> no_space (skipn n w) = true.
Proof.
  unfold no_space. rewrite !forallb_forall. intros H x Hx.
  apply H. eapply in_skipn_in; eassumption.
Qed.

Lemma no_newline_skipn (n : nat) (l : std_string) :
  existsb (Ascii.eqb NL) l = false -> ~ In NL (skipn n l).
Proof.
  intros H Hin. apply in_skipn_in in Hin.
  assert (E : existsb (Ascii.eqb NL) l = true)
    by (apply existsb_exists; exists NL; split; [assumption | apply Ascii.eqb_refl]).
  congruence.
Qed.

Lemma parse_line_fields (st : parser_state) (line : std_string) :
  existsb (Ascii.eqb NL) line = false ->
  fields_inv st -> fields_inv (parse_line st line).
Proof.
  intros Hnl [Hp Hc]. destruct line as [|c line].
  - split; [exact Hp | discriminate].
  - unfold parse_line.
    destruct (Ascii.eqb c SP || Ascii.eqb c HT).
    + destruct (expecting_desc st) eqn:He; [|split; [exact Hp | now rewrite He]].
      split; [|discriminate]. cbn [pkgs]. intros r Hr.
      apply in_app_or in Hr. destruct Hr as [Hr | [<- | []]]; [now apply Hp|].
      split; [exact (Hc eq_refl)|]. cbn [description set_description].
      destruct (find_first_not_of [SP; HT] (c :: line)) as [pos|].
      * now apply no_newline_skipn.
      * now apply (no_newline_skipn 0).
    + unfold parse_header.
      destruct (extract_word (c :: line)) as [[w h1]|] eqn:E1; [|now split].
      destruct (extract_word h1) as [[v h2]|] eqn:E2; [|now split].
      destruct (find_char "/" w) as [pos|]; [|now split].
      split; [exact Hp|]. intros _.
      apply extract_word_word in E1. apply extract_word_word in E2.
      destruct E1 as [_ Hw]. destruct E2 as [Hv Hvw].
      unfold word_fields, substr, substr_from. cbn [version repo name current skipn].
      repeat split; try assumption.
      * now apply no_space_firstn.
      * now apply no_space_skipn.
Qed.

Lemma fold_parse_line_fields (ls : list std_string) (st : parser_state) :
  Forall (fun l => existsb (Ascii.eqb NL) l = false) ls ->
  fields_inv st -> fields_inv (fold_left parse_line ls st).
Proof.
  revert st. induction ls as [|line ls IH]; intros st Hnl Hinv; [exact Hinv|].
  inversion Hnl as [|? ? Hl Hls]; subst. simpl.
  apply IH; [assumption|]. now apply parse_line_fields.
Qed.

(** X11: every emitted record has a non-empty version, no whitespace in
    its repository, name and version, and no newline in its description. *)
Theorem emitted_record_fields (output : std_string) (r : PackageInfo) :
  In r (parse_yay_search output) ->
  version r <> [] /\
  no_space (repo r) = true /\ no_space (name r) = true /\
  no_space (version r) = true /\
  ~ In NL (description r).
Proof.
  rewrite parse_yay_search_fold. intros Hr.
  destruct (fold_parse_line_fields (getlines output) parser_init
              (getlines_no_newline output)) as [Hp _].
  - split; [intros ? [] | discriminate].
  - destruct (Hp r Hr) as [(H1 & H2 & H3 & H4) H5]. repeat split; assumption.
Qed.

Lemma emitted_record_fields_witness :
  lit "1.0-1" <> [] /\
  no_space (lit "core") = true /\ no_space (lit "foo") = true /\
  no_space (lit "1.0-1") = true /\
  ~ In NL (lit "A sample package").
Proof.
  apply (emitted_record_fields sample_listing
           {| repo := lit "core"; name := lit "foo"; version := lit "1.0-1";
              description := lit "A sample package"; installed := false |}).
  vm_compute. left. reflexivity.
Defined.

(** *** Parsing back a printed listing *)

#[global] Arguments isspace : simpl never.

Lemma until_space_split (w rest : std_string) :
  no_space w = true ->
  match rest with [] => true | c :: _ => isspace c end = true ->
  until_space (w ++ rest) = (w, rest).
Proof.
  intros Hw Hr. induction w as [|d w IH]; simpl.
  - destruct rest as [|c r]; [reflexivity|]. simpl. now rewrite Hr.
  - simpl in Hw. apply andb_prop in Hw. destruct Hw as [Hd Hw].
    apply negb_true_iff in Hd. rewrite Hd, IH by assumption. reflexivity.
Qed.

Lemma extract_word_split (w rest : std_string) :
  w <> [] -> no_space w = true ->
  match rest with [] => true | c :: _ => isspace c end = true ->
  extract_word (w ++ rest) = Some (w, rest).
Proof.
  intros Hne Hw Hr. destruct w as [|d w]; [congruence|].
  pose proof (until_space_split (d :: w) rest Hw Hr) as E.
  simpl in Hw. apply andb_prop in Hw. destruct Hw as [Hd _].
  apply negb_true_iff in Hd.
  unfold extract_word. simpl skipws. rewrite Hd.
  simpl app in E. now rewrite E.
Qed.

Lemma find_char_split (c : ascii) (a b : std_string) :
  existsb (Ascii.eqb c) a = false ->
  find_char c (a ++ c :: b) = Some (length a).
Proof.
  induction a as [|x a IH]; simpl; intros H.
  - now rewrite Ascii.eqb_refl.
  - apply orb_false_elim in H. destruct H as [Hx H].
    rewrite Ascii.eqb_sym in Hx. rewrite Hx, IH by assumption. reflexivity.
Qed.

Lemma firstn_length_app (a b : std_string) : firstn (length a) (a ++ b) = a.
Proof. induction a as [|x a IH]; simpl; [reflexivity | now rewrite IH]. Qed.

Lemma skipn_length_app (a : std_string) (c : ascii) (b : std_string) :
  skipn (length a + 1) (a ++ c :: b) = b.
Proof. induction a as [|x a IH]; simpl; [reflexivity | exact IH]. Qed.

Lemma not_space_not_blank (c : ascii) :
  isspace c = false -> Ascii.eqb c SP || Ascii.eqb c HT = false.
Proof.
  unfold isspace. intros H. apply orb_false_elim in H. destruct H as [H1 H2].
  rewrite H1. simpl. destruct (Ascii.eqb_spec c HT) as [-> | _]; [|reflexivity].
  discriminate H2.
Qed.

Lemma no_space_app (a b : std_string) :
  no_space (a ++ b) = no_space a && no_space b.
Proof. apply forallb_app. Qed.

Lemma no_space_no_newline (w : std_string) :
  no_space w = true -> existsb (Ascii.eqb NL) w = false.
Proof.
  induction w as [|c w IH]; simpl; intros H; [reflexivity|].
  apply andb_prop in H. destruct H as [Hc H]. rewrite IH by assumption.
  destruct (Ascii.eqb_spec NL c) as [<- | _]; [discriminate Hc | reflexivity].
Qed.

(** What [printable] gives, field by field. *)
Lemma printable_inv (p : PackageInfo) :
  printable p = true ->
  no_space (repo p) = true /\ no_space (name p) = true /\
  no_space (version p) = true /\
  existsb (Ascii.eqb "/") (repo p) = false /\
  version p <> [] /\
  (exists c d, description p = c :: d /\
               Ascii.eqb c SP || Ascii.eqb c HT = false) /\
  existsb (Ascii.eqb NL) (description p) = false.
Proof.
  unfold printable. intros H.
  repeat (apply andb_prop in H; let H' := fresh "H" in destruct H as [H H']).
  repeat match goal with
         | X : negb _ = true |- _ => apply negb_true_iff in X
         end.
  repeat split; try assumption.
  - destruct (version p); [discriminate | discriminate].
  - destruct (description p) as [|c d]; [discriminate|].
    exists c, d. split; [reflexivity|]. now apply negb_true_iff.
Qed.

Lemma header_word_ok (p : PackageInfo) :
  no_space (repo p) = true -> no_space (name p) = true ->
  repo p ++ "/"%char :: name p <> [] /\
  no_space (repo p ++ "/"%char :: name p) = true.
Proof.
  intros H1 H2. split; [now destruct (repo p)|].
  rewrite no_space_app, H1. simpl. exact H2.
Qed.

Lemma header_text_no_newline (p : PackageInfo) :
  printable p = true -> existsb (Ascii.eqb NL) (header_text p) = false.
Proof.
  intros H. destruct (printable_inv p H) as (H1 & H2 & H3 & _).
  unfold header_text. rewrite !existsb_app. simpl.
  rewrite !existsb_app, !no_space_no_newline by assumption. simpl.
  now destruct (installed p).
Qed.

Lemma description_text_no_newline (p : PackageInfo) :
  printable p = true -> existsb (Ascii.eqb NL) (description_text p) = false.
Proof.
  intros H. destruct (printable_inv p H) as (_ & _ & _ & _ & _ & _ & H7).
  unfold description_text. rewrite existsb_app, H7. reflexivity.
Qed.

(** The header line of a printable record sets the candidate to it, with
    the description still empty. *)
Lemma header_text_step (st : parser_state) (p : PackageInfo) :
  printable p = true ->
  parse_line st (header_text p) =
  {| pkgs := pkgs st; current := set_description p [];
     expecting_desc := true |}.
Proof.
  intros H. destruct (printable_inv p H) as (H1 & H2 & H3 & H4 & H5 & _).
  destruct (header_word_ok p H1 H2) as [Hne Hw].
  set (tag := if installed p then lit " [installed]" else []).
  assert (Htag : match tag with [] => true | c :: _ => isspace c end = true)
    by (unfold tag; now destruct (installed p)).
  assert (E1 : extract_word (header_text p) =
               Some (repo p ++ "/"%char :: name p, SP :: version p ++ tag))
    by (apply extract_word_split; [assumption | assumption | reflexivity]).
  assert (E2 : extract_word (SP :: version p ++ tag) = Some (version p, tag)).
  { pose proof (extract_word_split (version p) tag H5 H3 Htag) as E.
    unfold extract_word in *. simpl skipws. exact E. }
  assert (Hhd : is_desc_line (header_text p) = false).
  { unfold header_text, is_desc_line.
    destruct (repo p) as [|c rp] eqn:Er; simpl; [reflexivity|].
    simpl in H1. apply andb_prop in H1. destruct H1 as [Hc _].
    apply negb_true_iff in Hc. now apply not_space_not_blank. }
  unfold parse_line. unfold is_desc_line in Hhd.
  destruct (header_text p) as [|c l] eqn:Eh.
  - unfold header_text in Eh. now destruct (repo p).
  - rewrite Hhd. unfold parse_header.
    rewrite E1, E2, find_char_split by assumption.
    unfold substr, substr_from. cbn [skipn].
    rewrite firstn_length_app, skipn_length_app.
    unfold set_description. f_equal. f_equal.
    unfold tag. destruct (installed p); reflexivity.
Qed.

(** The description line of a printable record, read with the flag set,
    completes the candidate and emits it. *)
Lemma description_text_step (st : parser_state) (p : PackageInfo) :
  printable p = true -> expecting_desc st = true ->
  parse_line st (description_text p) =
  {| pkgs := pkgs st ++ [set_description (current st) (description p)];
     current := set_description (current st) (description p);
     expecting_desc := false |}.
Proof.
  intros H He.
  destruct (printable_inv p H) as (_ & _ & _ & _ & _ & (c & d & Ed & Hc) & _).
  unfold description_text. rewrite Ed. simpl. rewrite He.
  cbn [find_first_not_of existsb]. rewrite orb_false_r.
  replace (Ascii.eqb " " SP || Ascii.eqb " " HT) with true by reflexivity.
  rewrite Hc. reflexivity.
Qed.

Lemma set_description_twice (p : PackageInfo) :
  set_description (set_description p []) (description p) = p.
Proof. now destruct p. Qed.

Lemma format_entry_app (p : PackageInfo) (rest : std_string) :
  format_entry p ++ rest =
  header_text p ++ NL :: description_text p ++ NL :: rest.
Proof.
  unfold format_entry. rewrite <- app_assoc. cbn [app].
  rewrite <- app_assoc. reflexivity.
Qed.

Lemma fold_format_listing (ps : list PackageInfo) (st : parser_state) :
  forallb printable ps = true ->
  pkgs (fold_left parse_line (getlines (format_listing ps)) st) = pkgs st ++ ps.
Proof.
  revert st. induction ps as [|p ps IH]; intros st Hps.
  - change (format_listing []) with (@nil ascii).
    rewrite getlines_nil. simpl. now rewrite app_nil_r.
  - simpl in Hps. apply andb_prop in Hps. destruct Hps as [Hp Hps].
    change (format_listing (p :: ps)) with (format_entry p ++ format_listing ps).
    rewrite format_entry_app.
    rewrite (getlines_line_nl (header_text p) _ (header_text_no_newline p Hp)).
    rewrite (getlines_line_nl (description_text p) _
               (description_text_no_newline p Hp)).
    cbn [fold_left]. rewrite header_text_step by assumption.
    rewrite description_text_step by (assumption || reflexivity).
    rewrite IH by assumption. cbn [pkgs current].
    rewrite set_description_twice, <- app_assoc. reflexivity.
Qed.

(** X12: parsing a printed listing gives back its records: for records a
    listing can carry, [parse_yay_search] undoes [format_listing]. *)
Theorem parse_format_round_trip (ps : list PackageInfo) :
  forallb printable ps = true ->
  parse_yay_search (format_listing ps) = ps.
Proof.
  intros Hps. rewrite parse_yay_search_fold.
  now rewrite fold_format_listing.
Qed.

Lemma parse_format_round_trip_witness :
  let ps :=
    [ {| repo := lit "core"; name := lit "foo"; version := lit "1.0-1";
         description := lit "A sample package"; installed := false |};
      {| repo := lit "extra"; name := lit "bar"; version := lit "2.0-1";
         description := lit "Another package"; installed := true |} ] in
  parse_yay_search (format_listing ps) = ps.
Proof.
  intros ps. apply (parse_format_round_trip ps). reflexivity.
Defined.

(** ** The process runner, on a child that runs *)

Section RunnerFurther.
Context {host : Host}.



Lemma run_command_status_result (cmd : std_string) (w : World) :
  fst (run_command_status cmd w) =
  match os_popen w cmd mode_r with
  | None => false
  | Some ch => (child_status ch [] =? 0)%Z
  end.
Proof.
  unfold run_command_status, bind, popen.
  destruct (os_popen w cmd mode_r) as [ch|]; [|reflexivity].
  now destruct (discard_loop (child_output ch) _).
Qed.

(** X14: [run_command_status] answers true exactly when the child was
    spawned and [pclose] returned 0, however much the child printed; so
    [is_package_installed] is true exactly when its [pacman -Qi] query
    ran and succeeded. *)
Theorem status_is_true_iff_child_succeeds (cmd name : std_string) (w : World) :
  (fst (run_command_status cmd w) = true <->
   exists ch, os_popen w cmd mode_r = Some ch /\ child_status ch [] = 0%Z) /\
  (fst (is_package_installed name w) = true <->
   exists ch,
     os_popen w (lit "pacman -Qi " ++ name ++ lit " >/dev/null 2>&1") mode_r =
       Some ch /\
     child_status ch [] = 0%Z).
Proof.
  assert (H : forall c,
             fst (run_command_status c w) = true <->
             exists ch, os_popen w c mode_r = Some ch /\
                        child_status ch [] = 0%Z).
  { intros c. rewrite run_command_status_result.
    destruct (os_popen w c mode_r) as [ch|].
    - rewrite Z.eqb_eq. split.
      + intros E. now exists ch.
      + intros (ch' & [= <-] & E). exact E.
    - split; [discriminate | intros (ch' & E & _); discriminate]. }
  split; [apply H | apply (H (lit "pacman -Qi " ++ name ++ lit " >/dev/null 2>&1"))].
Qed.

End RunnerFurther.


(** ** The search pipeline, from the command to the list shown *)

Section SearchFurther.
Context {host : Host}.

Lemma populate_loop_spec (pkgs : list PackageInfo) (total count : nat)
      (w : World) :
  populate_loop pkgs total count w =
  ((total + length pkgs, count + length (filter installed pkgs)),
   {| popen_calls := popen_calls w;
      stdin_writes := stdin_writes w;
      results_list := results_list w ++ pkgs;
      status_label := status_label w |}).
Proof.
  revert total count w.
  induction pkgs as [|pkg pkgs IH]; intros total count w.
  - simpl. unfold ret. rewrite !Nat.add_0_r, app_nil_r. now destruct w.
  - simpl. unfold bind, insert_row. rewrite IH.
    cbn [popen_calls stdin_writes results_list status_label length filter].
    rewrite <- app_assoc. cbn [app].
    destruct (installed pkg); cbn [length]; f_equal; f_equal; lia.
Qed.

Lemma populate_results_spec (pkgs : list PackageInfo) (w : World) :
  populate_results pkgs w =
  (tt, {| popen_calls := popen_calls w;
          stdin_writes := stdin_writes w;
          results_list := pkgs;
          status_label :=
            match status_label w with
            | Some _ => Some (results_status pkgs)
            | None => None
            end |}).
Proof.
  unfold populate_results, bind, clear_results.
  rewrite populate_loop_spec. reflexivity.
Qed.

(** X15: [populate_results] replaces the rows shown by the given records,
    in order, and sets the status text to their number and the number of
    them that are installed; it spawns nothing. *)
Theorem populate_results_shows_counts (pkgs : list PackageInfo) (w : World) :
  (Z.of_nat (length pkgs) < 2 ^ 31)%Z ->
  populate_results pkgs w =
  (tt, {| popen_calls := popen_calls w;
          stdin_writes := stdin_writes w;
          results_list := pkgs;
          status_label :=
            match status_label w with
            | Some _ =>
                Some (lit "Results: " ++ to_string (length pkgs) ++
                      lit "  | Installed: " ++
                      to_string (length (filter installed pkgs)) ++
                      lit " (already on system)")
            | None => None
            end |}).
Proof. intros _. apply populate_results_spec. Qed.

(** X16: when the search tool cannot be spawned, a search of a non-empty
    query empties the list and reports that nothing was found; no
    installed-check is run. *)
Theorem search_without_tool (query : std_string) (w : World) :
  query <> [] ->
  os_popen w (lit "yay -Ss " ++ query) mode_r = None ->
  perform_search query w =
  (tt, {| popen_calls := popen_calls w ++ [(lit "yay -Ss " ++ query, mode_r)];
          stdin_writes := stdin_writes w;
          results_list := [];
          status_label :=
            match status_label w with
            | Some _ => Some (lit "No results found.")
            | None => None
            end |}).
Proof.
  intros Hq Hnone. destruct query as [|c query]; [congruence|].
  assert (E : run_command (lit "yay -Ss " ++ c :: query) w =
              ([], {| popen_calls :=
                        popen_calls w ++ [(lit "yay -Ss " ++ c :: query, mode_r)];
                      stdin_writes := stdin_writes w;
                      results_list := results_list w;
                      status_label := status_label w |}))
    by (unfold run_command, bind, popen; now rewrite Hnone).
  unfold perform_search. cbv zeta. unfold bind at 1. rewrite E.
  change (parse_yay_search (strip_ansi_and_osc [])) with (@nil PackageInfo).
  cbn [resolve_installed]. unfold bind at 1. unfold ret at 1.
  unfold bind. rewrite populate_results_spec. unfold set_status.
  cbn [popen_calls stdin_writes results_list status_label].
  now destruct (status_label w).
Qed.

Lemma perform_search_result (c : ascii) (query : std_string) (w : World) :
  let r1 := run_command (lit "yay -Ss " ++ c :: query) w in
  let r2 :=
    resolve_installed (parse_yay_search (strip_ansi_and_osc (fst r1))) (snd r1) in
  perform_search (c :: query) w =
  (tt, {| popen_calls := popen_calls (snd r2);
          stdin_writes := stdin_writes (snd r2);
          results_list := fst r2;
          status_label :=
            match status_label (snd r2) with
            | Some _ =>
                Some match fst r2 with
                     | [] => lit "No results found."
                     | _ :: _ => results_status (fst r2)
                     end
            | None => None
            end |}).
Proof.
  intros r1 r2. subst r1 r2. unfold perform_search, bind.
  destruct (run_command (lit "yay -Ss " ++ c :: query) w) as [raw w1].
  cbn [fst snd].
  destruct (resolve_installed (parse_yay_search (strip_ansi_and_osc raw)) w1)
    as [final w2].
  rewrite populate_results_spec. cbn [fst snd].
  destruct final; unfold set_status, ret;
    cbn [popen_calls stdin_writes results_list status_label];
    now destruct (status_label w2).
Qed.

(** X17: after a search of a non-empty query the status text says that
    nothing was found when no record came out, and otherwise gives the
    number of records shown and of those the installed-checks found
    installed. *)
Theorem search_status_text (query : std_string) (w : World) :
  query <> [] ->
  let r1 := run_command (lit "yay -Ss " ++ query) w in
  let r2 :=
    resolve_installed (parse_yay_search (strip_ansi_and_osc (fst r1))) (snd r1) in
  (Z.of_nat (length (fst r2)) < 2 ^ 31)%Z ->
  status_label (snd (perform_search query w)) =
  match status_label (snd r2) with
  | Some _ =>
      Some match fst r2 with
           | [] => lit "No results found."
           | _ :: _ =>
               lit "Results: " ++ to_string (length (fst r2)) ++
               lit "  | Installed: " ++
               to_string (length (filter installed (fst r2))) ++
               lit " (already on system)"
           end
  | None => None
  end.
Proof.
  intros Hq r1 r2 _. destruct query as [|c query]; [congruence|].
  subst r1 r2. now rewrite perform_search_result.
Qed.



End SearchFurther.


Lemma search_status_text_witness :
  status_label (snd (@perform_search host_sample (lit "foo") world0)) =
  Some (lit "Results: 2  | Installed: 1 (already on system)").
Proof.
  apply (@search_status_text host_sample (lit "foo") world0);
    [discriminate | reflexivity].
Defined.

Lemma populate_results_shows_counts_witness :
  @populate_results
    [ {| repo := lit "core"; name := lit "foo"; version := lit "1.0-1";
         description := lit "A sample package"; installed := true |} ] world0 =
  (tt, {| popen_calls := []; stdin_writes := [];
          results_list :=
            [ {| repo := lit "core"; name := lit "foo"; version := lit "1.0-1";
                 description := lit "A sample package"; installed := true |} ];
          status_label :=
            Some (lit "Results: 1  | Installed: 1 (already on system)") |}).
Proof.
  apply (@populate_results_shows_counts
           [ {| repo := lit "core"; name := lit "foo"; version := lit "1.0-1";
                description := lit "A sample package"; installed := true |} ]
           world0).
  reflexivity.
Defined.

Lemma search_without_tool_witness :
  @perform_search host_no_spawn (lit "vim") world0 =
  (tt, {| popen_calls := [(lit "yay -Ss vim", mode_r)];
          stdin_writes := [];
          results_list := [];
          status_label := Some (lit "No results found.") |}).
Proof.
  apply (@search_without_tool host_no_spawn (lit "vim") world0);
    [discriminate | reflexivity].
Defined.

Section SearchTrace.
Context {host : Host}.
Hypothesis events_are_quiet : quiet_events.

Lemma capture_loop_quiet (chunks : list std_string) (result : std_string)
      (w : World) :
  popen_calls (snd (capture_loop chunks result w)) = popen_calls w /\
  stdin_writes (snd (capture_loop chunks result w)) = stdin_writes w.
Proof.
  revert result w. induction chunks as [|buffer chunks IH]; intros result w.
  - now split.
  - simpl. unfold bind, gtk_drain.
    destruct (IH (result ++ buffer) (gtk_events w)) as [-> ->].
    apply events_are_quiet.
Qed.

Lemma discard_loop_quiet (chunks : list std_string) (w : World) :
  popen_calls (snd (discard_loop chunks w)) = popen_calls w /\
  stdin_writes (snd (discard_loop chunks w)) = stdin_writes w.
Proof.
  revert w. induction chunks as [|buffer chunks IH]; intros w.
  - now split.
  - simpl. unfold bind, gtk_drain.
    destruct (IH (gtk_events w)) as [-> ->].
    apply events_are_quiet.
Qed.

Lemma run_command_quiet (cmd : std_string) (w : World) :
  popen_calls (snd (run_command cmd w)) = popen_calls w ++ [(cmd, mode_r)] /\
  stdin_writes (snd (run_command cmd w)) = stdin_writes w.
Proof.
  unfold run_command, bind, popen.
  destruct (os_popen w cmd mode_r) as [ch|]; [|now split].
  match goal with |- context [capture_loop ?c ?r ?w1] =>
    destruct (capture_loop_quiet c r w1) as [-> ->] end.
  now split.
Qed.

Lemma run_command_status_quiet (cmd : std_string) (w : World) :
  popen_calls (snd (run_command_status cmd w)) =
    popen_calls w ++ [(cmd, mode_r)] /\
  stdin_writes (snd (run_command_status cmd w)) = stdin_writes w.
Proof.
  unfold run_command_status, bind, popen.
  destruct (os_popen w cmd mode_r) as [ch|]; [|now split].
  match goal with |- context [discard_loop ?c ?w1] =>
    pose proof (discard_loop_quiet c w1) as H;
    destruct (discard_loop c w1) as [u w2] end.
  simpl in *. exact H.
Qed.

Lemma resolve_installed_quiet (pkgs : list PackageInfo) (w : World) :
  popen_calls (snd (resolve_installed pkgs w)) =
    popen_calls w ++ map (fun p => (pacman_query (name p), mode_r)) pkgs /\
  stdin_writes (snd (resolve_installed pkgs w)) = stdin_writes w.
Proof.
  revert w. induction pkgs as [|pkg pkgs IH]; intros w.
  - simpl. now rewrite app_nil_r.
  - simpl. unfold bind, is_package_installed.
    fold (pacman_query (name pkg)).
    pose proof (run_command_status_quiet (pacman_query (name pkg)) w) as [H1 H2].
    destruct (run_command_status (pacman_query (name pkg)) w) as [b w1].
    destruct (IH w1) as [H3 H4].
    destruct (resolve_installed pkgs w1) as [rest w2].
    simpl in *. rewrite H3, H4, H1, H2, <- app_assoc. now split.
Qed.

Lemma perform_search_quiet (c : ascii) (query : std_string) (w : World) :
  popen_calls (snd (perform_search (c :: query) w)) =
    popen_calls w ++
    (lit "yay -Ss " ++ c :: query, mode_r) ::
    map (fun p => (pacman_query (name p), mode_r))
      (parse_yay_search
         (strip_ansi_and_osc
            (fst (run_command (lit "yay -Ss " ++ c :: query) w)))) /\
  stdin_writes (snd (perform_search (c :: query) w)) = stdin_writes w.
Proof.
  rewrite perform_search_result. cbn [snd popen_calls stdin_writes].
  destruct (run_command_quiet (lit "yay -Ss " ++ c :: query) w) as [H1 H2].
  destruct (resolve_installed_quiet
              (parse_yay_search
                 (strip_ansi_and_osc
                    (fst (run_command (lit "yay -Ss " ++ c :: query) w))))
              (snd (run_command (lit "yay -Ss " ++ c :: query) w)))
    as [H3 H4].
  split.
  - rewrite H3, H1, <- app_assoc. reflexivity.
  - now rewrite H4, H2.
Qed.

(** X19: with an event loop that spawns nothing, a search of a non-empty
    query spawns the search tool once and then one installed-check per
    parsed record, in the order parsed, and feeds no child's input. *)
Theorem search_spawns_one_check_per_record (query : std_string) (w : World) :
  query <> [] ->
  let parsed :=
    parse_yay_search
      (strip_ansi_and_osc (fst (run_command (lit "yay -Ss " ++ query) w))) in
  popen_calls (snd (perform_search query w)) =
    popen_calls w ++
    (lit "yay -Ss " ++ query, mode_r) ::
    map (fun p => (lit "pacman -Qi " ++ name p ++ lit " >/dev/null 2>&1", mode_r))
      parsed /\
  stdin_writes (snd (perform_search query w)) = stdin_writes w.
Proof.
  intros Hq parsed. subst parsed.
  destruct query as [|c query]; [congruence|].
  apply perform_search_quiet.
Qed.

End SearchTrace.

Lemma host_sample_quiet : @quiet_events host_sample.
Proof. intros w. split; reflexivity. Defined.

Lemma search_spawns_one_check_per_record_witness :
  popen_calls (snd (@perform_search host_sample (lit "foo") world0)) =
    [ (lit "yay -Ss foo", mode_r);
      (lit "pacman -Qi foo >/dev/null 2>&1", mode_r);
      (lit "pacman -Qi bar >/dev/null 2>&1", mode_r) ] /\
  stdin_writes (snd (@perform_search host_sample (lit "foo") world0)) = [].
Proof.
  apply (@search_spawns_one_check_per_record host_sample host_sample_quiet
           (lit "foo") world0).
  discriminate.
Defined.

(** ** The install, remove and clean handlers *)

Section HandlerProperties.
Context {host : Host} {desk : Desktop}.
Hypothesis events_are_quiet : quiet_events.
Hypothesis dialogs_are_quiet : quiet_dialogs.

Lemma run_sudo_trace (p0 : ascii) (pw cmd : std_string) (w : World) :
  popen_calls (snd (run_sudo_with_password (p0 :: pw) cmd w)) =
    popen_calls w ++ [(cmd, mode_w)] /\
  stdin_writes (snd (run_sudo_with_password (p0 :: pw) cmd w)) =
    stdin_writes w ++
    (if is_some (os_popen w cmd mode_w) then [(p0 :: pw) ++ [NL]] else []).
Proof.
  unfold run_sudo_with_password, bind, popen.
  destruct (os_popen w cmd mode_w) as [ch|]; simpl.
  - now split.
  - now rewrite app_nil_r.
Qed.

(** The steps the three handlers share once the user has agreed, up to
    what each does last: the world when the result notice is closed. *)
Lemma privileged_steps_run (p0 : ascii) (pw status_text cmd : std_string)
      (done_text : bool -> std_string) (k : IO unit) (w : World) :
  let auth :=
    run_sudo_with_password (p0 :: pw) sudo_command
      (snd (set_status status_text w)) in
  exists w_done,
    (set_status status_text ;;
     auth_ok <- run_sudo_with_password (p0 :: pw) sudo_command ;;
     ok <- (if auth_ok then run_command_status cmd else ret false) ;;
     message_dialog (if ok then MESSAGE_INFO else MESSAGE_ERROR)
       (done_text ok) ;;
     k) w = k w_done /\
    popen_calls w_done =
      popen_calls w ++
      (sudo_command, mode_w) :: (if fst auth then [(cmd, mode_r)] else []) /\
    stdin_writes w_done =
      stdin_writes w ++
      (if is_some (os_popen (snd (set_status status_text w)) sudo_command mode_w)
       then [(p0 :: pw) ++ [NL]] else []).
Proof.
  intros auth. subst auth. unfold bind.
  set (w_s := snd (set_status status_text w)).
  assert (Hs : popen_calls w_s = popen_calls w /\ stdin_writes w_s = stdin_writes w)
    by (split; reflexivity).
  destruct Hs as [Hs1 Hs2].
  change (set_status status_text w) with (tt, w_s).
  cbv beta iota.
  destruct (run_sudo_trace p0 pw sudo_command w_s) as [Ha1 Ha2].
  destruct (run_sudo_with_password (p0 :: pw) sudo_command w_s) as [auth_ok w_a].
  cbn [fst snd] in *.
  assert (Hc : exists ok w_c,
             (if auth_ok then run_command_status cmd else ret false) w_a = (ok, w_c) /\
             popen_calls w_c =
               popen_calls w_a ++ (if auth_ok then [(cmd, mode_r)] else []) /\
             stdin_writes w_c = stdin_writes w_a).
  { destruct auth_ok.
    - destruct (run_command_status_quiet events_are_quiet cmd w_a) as [H1 H2].
      destruct (run_command_status cmd w_a) as [ok w_c].
      exists ok, w_c. repeat split; assumption.
    - exists false, w_a. unfold ret. rewrite app_nil_r. repeat split. }
  destruct Hc as (ok & w_c & -> & Hc1 & Hc2).
  unfold message_dialog.
  destruct (dialogs_are_quiet (if ok then MESSAGE_INFO else MESSAGE_ERROR)
              (done_text ok) w_c) as [Hd1 Hd2].
  destruct (gtk_dialog_run (if ok then MESSAGE_INFO else MESSAGE_ERROR)
              (done_text ok) w_c) as [r w_d].
  cbn [fst snd] in *. exists w_d.
  split; [reflexivity|].
  rewrite Hd1, Hd2, Hc1, Hc2, Ha1, Ha2, Hs1, Hs2.
  split; [|reflexivity].
  rewrite <- !app_assoc. reflexivity.
Qed.

Lemma refresh_trace (w : World) :
  popen_calls
    (snd ((current_query <- search_entry_text ;;
           match current_query with
           | Some (c :: q) => perform_search (c :: q)
           | _ => set_status (lit "Ready. Enter a search term.")
           end) w)) =
    popen_calls w ++ refresh_calls w /\
  stdin_writes
    (snd ((current_query <- search_entry_text ;;
           match current_query with
           | Some (c :: q) => perform_search (c :: q)
           | _ => set_status (lit "Ready. Enter a search term.")
           end) w)) =
    stdin_writes w.
Proof.
  unfold bind, search_entry_text, refresh_calls.
  destruct (gtk_entry_get_text w) as [[|c q]|].
  - simpl. now rewrite app_nil_r.
  - apply (perform_search_quiet events_are_quiet).
  - simpl. now rewrite app_nil_r.
Qed.

Lemma refresh_calls_are_queries (w : World) :
  forallb is_query_call (refresh_calls w) = true.
Proof.
  unfold refresh_calls.
  destruct (gtk_entry_get_text w) as [[|c q]|]; try reflexivity.
  unfold search_calls. cbn [forallb]. apply andb_true_intro. split.
  - reflexivity.
  - apply forallb_forall. intros call Hin. apply in_map_iff in Hin.
    destruct Hin as (p & <- & _). unfold is_query_call.
    apply orb_true_intro. right. reflexivity.
Qed.

Lemma not_among_queries (cmd : std_string)
      (calls : list (std_string * popen_mode)) :
  is_query_call (cmd, mode_r) = false ->
  forallb is_query_call calls = true ->
  ~ In (cmd, mode_r) calls.
Proof.
  intros Hc Hall Hin. rewrite forallb_forall in Hall.
  specialize (Hall _ Hin). congruence.
Qed.

Lemma on_install_stops (g_sudo_password pkg_name : std_string) (w : World) :
  g_sudo_password = [] \/
  fst (gtk_dialog_run MESSAGE_QUESTION (install_question pkg_name) w)
    <> GTK_RESPONSE_OK ->
  exists type text,
    on_install_clicked g_sudo_password (Some pkg_name) w =
    (tt, snd (gtk_dialog_run type text w)).
Proof.
  intros Hstop. unfold on_install_clicked, bind, message_dialog.
  destruct g_sudo_password as [|p0 pw].
  - exists MESSAGE_ERROR, no_password_text.
    now destruct (gtk_dialog_run MESSAGE_ERROR no_password_text w).
  - destruct Hstop as [Hstop | Hstop]; [discriminate|].
    exists MESSAGE_QUESTION, (install_question pkg_name).
    destruct (gtk_dialog_run MESSAGE_QUESTION (install_question pkg_name) w)
      as [r w1].
    cbn [fst snd] in *. apply Z.eqb_neq in Hstop. now rewrite Hstop.
Qed.

Lemma on_remove_stops (g_sudo_password pkg_name : std_string) (w : World) :
  g_sudo_password = [] \/
  fst (gtk_dialog_run MESSAGE_QUESTION (remove_question pkg_name) w)
    <> GTK_RESPONSE_OK ->
  exists type text,
    on_remove_clicked g_sudo_password (Some pkg_name) w =
    (tt, snd (gtk_dialog_run type text w)).
Proof.
  intros Hstop. unfold on_remove_clicked, bind, message_dialog.
  destruct g_sudo_password as [|p0 pw].
  - exists MESSAGE_ERROR, no_password_text.
    now destruct (gtk_dialog_run MESSAGE_ERROR no_password_text w).
  - destruct Hstop as [Hstop | Hstop]; [discriminate|].
    exists MESSAGE_QUESTION, (remove_question pkg_name).
    destruct (gtk_dialog_run MESSAGE_QUESTION (remove_question pkg_name) w)
      as [r w1].
    cbn [fst snd] in *. apply Z.eqb_neq in Hstop. now rewrite Hstop.
Qed.

Lemma on_clean_stops (g_sudo_password : std_string) (w : World) :
  g_sudo_password = [] \/
  fst (gtk_dialog_run MESSAGE_QUESTION clean_question w) <> GTK_RESPONSE_OK ->
  exists type text,
    on_clean_orphans_clicked g_sudo_password w =
    (tt, snd (gtk_dialog_run type text w)).
Proof.
  intros Hstop. unfold on_clean_orphans_clicked, bind, message_dialog.
  destruct g_sudo_password as [|p0 pw].
  - exists MESSAGE_ERROR, no_password_text.
    now destruct (gtk_dialog_run MESSAGE_ERROR no_password_text w).
  - destruct Hstop as [Hstop | Hstop]; [discriminate|].
    exists MESSAGE_QUESTION, clean_question.
    destruct (gtk_dialog_run MESSAGE_QUESTION clean_question w) as [r w1].
    cbn [fst snd] in *. apply Z.eqb_neq in Hstop. now rewrite Hstop.
Qed.

(** X20: each of the three handlers stops before spawning anything or
    feeding any child when no password is cached or when the user does
    not answer the question with OK. *)
Theorem handlers_need_password_and_consent
        (g_sudo_password pkg_name : std_string) (w : World) :
  (g_sudo_password = [] \/
   fst (gtk_dialog_run MESSAGE_QUESTION (install_question pkg_name) w)
     <> GTK_RESPONSE_OK ->
   popen_calls (snd (on_install_clicked g_sudo_password (Some pkg_name) w)) =
     popen_calls w /\
   stdin_writes (snd (on_install_clicked g_sudo_password (Some pkg_name) w)) =
     stdin_writes w) /\
  (g_sudo_password = [] \/
   fst (gtk_dialog_run MESSAGE_QUESTION (remove_question pkg_name) w)
     <> GTK_RESPONSE_OK ->
   popen_calls (snd (on_remove_clicked g_sudo_password (Some pkg_name) w)) =
     popen_calls w /\
   stdin_writes (snd (on_remove_clicked g_sudo_password (Some pkg_name) w)) =
     stdin_writes w) /\
  (g_sudo_password = [] \/
   fst (gtk_dialog_run MESSAGE_QUESTION clean_question w) <> GTK_RESPONSE_OK ->
   popen_calls (snd (on_clean_orphans_clicked g_sudo_password w)) =
     popen_calls w /\
   stdin_writes (snd (on_clean_orphans_clicked g_sudo_password w)) =
     stdin_writes w).
Proof.
  split; [|split]; intros Hstop.
  - destruct (on_install_stops _ _ _ Hstop) as (type & text & ->).
    apply dialogs_are_quiet.
  - destruct (on_remove_stops _ _ _ Hstop) as (type & text & ->).
    apply dialogs_are_quiet.
  - destruct (on_clean_stops _ _ Hstop) as (type & text & ->).
    apply dialogs_are_quiet.
Qed.

Lemma on_install_proceeds (p0 : ascii) (pw pkg_name : std_string) (w : World) :
  fst (gtk_dialog_run MESSAGE_QUESTION (install_question pkg_name) w) =
    GTK_RESPONSE_OK ->
  on_install_clicked (p0 :: pw) (Some pkg_name) w =
  (set_status (lit "Installing " ++ pkg_name ++ lit "...") ;;
   auth_ok <- run_sudo_with_password (p0 :: pw) sudo_command ;;
   ok <- (if auth_ok
          then run_command_status (install_command pkg_name)
          else ret false) ;;
   message_dialog (if ok then MESSAGE_INFO else MESSAGE_ERROR)
     (install_done_text ok) ;;
   current_query <- search_entry_text ;;
   match current_query with
   | Some (c :: q) => perform_search (c :: q)
   | _ => set_status (lit "Ready. Enter a search term.")
   end)
    (snd (gtk_dialog_run MESSAGE_QUESTION (install_question pkg_name) w)).
Proof.
  intros Hok. unfold on_install_clicked. unfold bind at 1.
  unfold message_dialog at 1.
  destruct (gtk_dialog_run MESSAGE_QUESTION (install_question pkg_name) w)
    as [r w1].
  cbn [fst snd] in *. subst r. reflexivity.
Qed.

Lemma on_remove_proceeds (p0 : ascii) (pw pkg_name : std_string) (w : World) :
  fst (gtk_dialog_run MESSAGE_QUESTION (remove_question pkg_name) w) =
    GTK_RESPONSE_OK ->
  on_remove_clicked (p0 :: pw) (Some pkg_name) w =
  (set_status (lit "Removing " ++ pkg_name ++ lit "...") ;;
   auth_ok <- run_sudo_with_password (p0 :: pw) sudo_command ;;
   ok <- (if auth_ok
          then run_command_status (remove_command pkg_name)
          else ret false) ;;
   message_dialog (if ok then MESSAGE_INFO else MESSAGE_ERROR)
     (remove_done_text ok) ;;
   current_query <- search_entry_text ;;
   match current_query with
   | Some (c :: q) => perform_search (c :: q)
   | _ => set_status (lit "Ready. Enter a search term.")
   end)
    (snd (gtk_dialog_run MESSAGE_QUESTION (remove_question pkg_name) w)).
Proof.
  intros Hok. unfold on_remove_clicked. unfold bind at 1.
  unfold message_dialog at 1.
  destruct (gtk_dialog_run MESSAGE_QUESTION (remove_question pkg_name) w)
    as [r w1].
  cbn [fst snd] in *. subst r. reflexivity.
Qed.

Lemma on_clean_proceeds (p0 : ascii) (pw : std_string) (w : World) :
  fst (gtk_dialog_run MESSAGE_QUESTION clean_question w) = GTK_RESPONSE_OK ->
  on_clean_orphans_clicked (p0 :: pw) w =
  (set_status (lit "Cleaning orphaned packages...") ;;
   auth_ok <- run_sudo_with_password (p0 :: pw) sudo_command ;;
   ok <- (if auth_ok then run_command_status clean_command else ret false) ;;
   message_dialog (if ok then MESSAGE_INFO else MESSAGE_ERROR)
     (clean_done_text ok) ;;
   set_status (lit "Orphan cleanup complete. You can search again."))
    (snd (gtk_dialog_run MESSAGE_QUESTION clean_question w)).
Proof.
  intros Hok. unfold on_clean_orphans_clicked. unfold bind at 1.
  unfold message_dialog at 1.
  destruct (gtk_dialog_run MESSAGE_QUESTION clean_question w) as [r w1].
  cbn [fst snd] in *. subst r. reflexivity.
Qed.

Lemma command_among_calls (cmd : std_string) (auth_ok : bool)
      (refresh : list (std_string * popen_mode)) :
  is_query_call (cmd, mode_r) = false ->
  forallb is_query_call refresh = true ->
  In (cmd, mode_r) ((if auth_ok then [(cmd, mode_r)] else []) ++ refresh) <->
  auth_ok = true.
Proof.
  intros Hc Hall. split.
  - intros Hin. apply in_app_or in Hin. destruct Hin as [Hin | Hin].
    + destruct auth_ok; [reflexivity | destruct Hin].
    + now elim (not_among_queries cmd refresh Hc Hall).
  - intros ->. now left.
Qed.

(** X21: once a password is cached and the user has agreed,
    [on_install_clicked] first spawns [sudo -S -v] and feeds it the
    password and a newline; [yay -S] for the package is spawned exactly
    when that pre-authentication succeeded; nothing else is fed. *)
Theorem install_runs_after_auth (p0 : ascii) (pw pkg_name : std_string)
        (w : World) :
  fst (gtk_dialog_run MESSAGE_QUESTION (install_question pkg_name) w) =
    GTK_RESPONSE_OK ->
  let w_s :=
    snd (set_status (lit "Installing " ++ pkg_name ++ lit "...")
           (snd (gtk_dialog_run MESSAGE_QUESTION (install_question pkg_name) w))) in
  let auth_ok := fst (run_sudo_with_password (p0 :: pw) sudo_command w_s) in
  exists calls,
    popen_calls (snd (on_install_clicked (p0 :: pw) (Some pkg_name) w)) =
      popen_calls w ++ (sudo_command, mode_w) :: calls /\
    (In (install_command pkg_name, mode_r) calls <-> auth_ok = true) /\
    stdin_writes (snd (on_install_clicked (p0 :: pw) (Some pkg_name) w)) =
      stdin_writes w ++
      (if is_some (os_popen w_s sudo_command mode_w)
       then [(p0 :: pw) ++ [NL]] else []).
Proof.
  intros Hok w_s auth_ok. rewrite on_install_proceeds by assumption.
  destruct (dialogs_are_quiet MESSAGE_QUESTION (install_question pkg_name) w)
    as [Hq1 Hq2].
  match goal with |- context [bind ?a ?f ?w0] =>
    destruct (privileged_steps_run p0 pw
                (lit "Installing " ++ pkg_name ++ lit "...")
                (install_command pkg_name) install_done_text
                (current_query <- search_entry_text ;;
                 match current_query with
                 | Some (c :: q) => perform_search (c :: q)
                 | _ => set_status (lit "Ready. Enter a search term.")
                 end) w0) as (w_d & E & Hc & Hw) end.
  rewrite E. destruct (refresh_trace w_d) as [R1 R2].
  rewrite R1, R2, Hc, Hw, Hq1, Hq2.
  exists ((if auth_ok then [(install_command pkg_name, mode_r)] else []) ++
          refresh_calls w_d).
  split; [now rewrite <- app_assoc|]. split; [|reflexivity].
  apply command_among_calls; [reflexivity | apply refresh_calls_are_queries].
Qed.

(** X22: once a password is cached and the user has agreed,
    [on_remove_clicked] first spawns [sudo -S -v] and feeds it the
    password and a newline; [yay -Rns] for the package is spawned exactly
    when that pre-authentication succeeded; nothing else is fed. *)
Theorem remove_runs_after_auth (p0 : ascii) (pw pkg_name : std_string)
        (w : World) :
  fst (gtk_dialog_run MESSAGE_QUESTION (remove_question pkg_name) w) =
    GTK_RESPONSE_OK ->
  let w_s :=
    snd (set_status (lit "Removing " ++ pkg_name ++ lit "...")
           (snd (gtk_dialog_run MESSAGE_QUESTION (remove_question pkg_name) w))) in
  let auth_ok := fst (run_sudo_with_password (p0 :: pw) sudo_command w_s) in
  exists calls,
    popen_calls (snd (on_remove_clicked (p0 :: pw) (Some pkg_name) w)) =
      popen_calls w ++ (sudo_command, mode_w) :: calls /\
    (In (remove_command pkg_name, mode_r) calls <-> auth_ok = true) /\
    stdin_writes (snd (on_remove_clicked (p0 :: pw) (Some pkg_name) w)) =
      stdin_writes w ++
      (if is_some (os_popen w_s sudo_command mode_w)
       then [(p0 :: pw) ++ [NL]] else []).
Proof.
  intros Hok w_s auth_ok. rewrite on_remove_proceeds by assumption.
  destruct (dialogs_are_quiet MESSAGE_QUESTION (remove_question pkg_name) w)
    as [Hq1 Hq2].
  match goal with |- context [bind ?a ?f ?w0] =>
    destruct (privileged_steps_run p0 pw
                (lit "Removing " ++ pkg_name ++ lit "...")
                (remove_command pkg_name) remove_done_text
                (current_query <- search_entry_text ;;
                 match current_query with
                 | Some (c :: q) => perform_search (c :: q)
                 | _ => set_status (lit "Ready. Enter a search term.")
                 end) w0) as (w_d & E & Hc & Hw) end.
  rewrite E. destruct (refresh_trace w_d) as [R1 R2].
  rewrite R1, R2, Hc, Hw, Hq1, Hq2.
  exists ((if auth_ok then [(remove_command pkg_name, mode_r)] else []) ++
          refresh_calls w_d).
  split; [now rewrite <- app_assoc|]. split; [|reflexivity].
  apply command_among_calls; [reflexivity | apply refresh_calls_are_queries].
Qed.

(** X23: once a password is cached and the user has agreed,
    [on_clean_orphans_clicked] spawns [sudo -S -v], feeds it the password
    and a newline, and then spawns [yay -Yc --noconfirm] exactly when that
    pre-authentication succeeded; it spawns and feeds nothing else. *)
Theorem clean_runs_after_auth (p0 : ascii) (pw : std_string) (w : World) :
  fst (gtk_dialog_run MESSAGE_QUESTION clean_question w) = GTK_RESPONSE_OK ->
  let w_s :=
    snd (set_status (lit "Cleaning orphaned packages...")
           (snd (gtk_dialog_run MESSAGE_QUESTION clean_question w))) in
  let auth_ok := fst (run_sudo_with_password (p0 :: pw) sudo_command w_s) in
  popen_calls (snd (on_clean_orphans_clicked (p0 :: pw) w)) =
    popen_calls w ++
    (sudo_command, mode_w) ::
    (if auth_ok then [(clean_command, mode_r)] else []) /\
  stdin_writes (snd (on_clean_orphans_clicked (p0 :: pw) w)) =
    stdin_writes w ++
    (if is_some (os_popen w_s sudo_command mode_w)
     then [(p0 :: pw) ++ [NL]] else []).
Proof.
  intros Hok w_s auth_ok. rewrite on_clean_proceeds by assumption.
  destruct (dialogs_are_quiet MESSAGE_QUESTION clean_question w) as [Hq1 Hq2].
  match goal with |- context [bind ?a ?f ?w0] =>
    destruct (privileged_steps_run p0 pw
                (lit "Cleaning orphaned packages...")
                clean_command clean_done_text
                (set_status (lit "Orphan cleanup complete. You can search again."))
                w0) as (w_d & E & Hc & Hw) end.
  rewrite E. cbn [set_status snd popen_calls stdin_writes].
  rewrite Hc, Hw, Hq1, Hq2. split; reflexivity.
Qed.

End HandlerProperties.

Lemma host_sudo_quiet : @quiet_events host_sudo.
Proof. intros w. split; reflexivity. Defined.

Lemma desk_answering_quiet (response : Z) (entry : option std_string) :
  @quiet_dialogs (desk_answering response entry).
Proof. intros type text w. split; reflexivity. Defined.

Lemma handlers_need_password_and_consent_witness :
  let desk := desk_answering (-6)%Z (Some (lit "vim")) in
  (popen_calls
     (snd (@on_install_clicked host_sudo desk (lit "secret") (Some (lit "vim"))
             world0)) = [] /\
   stdin_writes
     (snd (@on_install_clicked host_sudo desk (lit "secret") (Some (lit "vim"))
             world0)) = []) /\
  (popen_calls
     (snd (@on_remove_clicked host_sudo desk (lit "secret") (Some (lit "vim"))
             world0)) = [] /\
   stdin_writes
     (snd (@on_remove_clicked host_sudo desk (lit "secret") (Some (lit "vim"))
             world0)) = []) /\
  (popen_calls (snd (@on_clean_orphans_clicked host_sudo desk (lit "secret") world0)) = [] /\
   stdin_writes (snd (@on_clean_orphans_clicked host_sudo desk (lit "secret") world0)) = []).
Proof.
  intros desk.
  destruct (@handlers_need_password_and_consent host_sudo desk
              (desk_answering_quiet (-6)%Z (Some (lit "vim")))
              (lit "secret") (lit "vim") world0) as (H1 & H2 & H3).
  split; [|split].
  - apply H1. right. discriminate.
  - apply H2. right. discriminate.
  - apply H3. right. discriminate.
Defined.

Lemma install_runs_after_auth_witness :
  let desk := desk_answering GTK_RESPONSE_OK (Some []) in
  exists calls,
    popen_calls
      (snd (@on_install_clicked host_sudo desk (lit "wrong") (Some (lit "vim"))
              world0)) =
      popen_calls world0 ++ (sudo_command, mode_w) :: calls /\
    (In (install_command (lit "vim"), mode_r) calls <-> false = true) /\
    stdin_writes
      (snd (@on_install_clicked host_sudo desk (lit "wrong") (Some (lit "vim"))
              world0)) =
      stdin_writes world0 ++ [lit "wrong" ++ [NL]].
Proof.
  intros desk.
  apply (@install_runs_after_auth host_sudo desk host_sudo_quiet
           (desk_answering_quiet GTK_RESPONSE_OK (Some []))
           "w" (lit "rong") (lit "vim") world0).
  reflexivity.
Defined.

Lemma remove_runs_after_auth_witness :
  let desk := desk_answering GTK_RESPONSE_OK (Some []) in
  exists calls,
    popen_calls
      (snd (@on_remove_clicked host_sudo desk (lit "secret") (Some (lit "vim"))
              world0)) =
      popen_calls world0 ++ (sudo_command, mode_w) :: calls /\
    (In (remove_command (lit "vim"), mode_r) calls <-> true = true) /\
    stdin_writes
      (snd (@on_remove_clicked host_sudo desk (lit "secret") (Some (lit "vim"))
              world0)) =
      stdin_writes world0 ++ [lit "secret" ++ [NL]].
Proof.
  intros desk.
  apply (@remove_runs_after_auth host_sudo desk host_sudo_quiet
           (desk_answering_quiet GTK_RESPONSE_OK (Some []))
           "s" (lit "ecret") (lit "vim") world0).
  reflexivity.
Defined.

Lemma clean_runs_after_auth_witness :
  let desk := desk_answering GTK_RESPONSE_OK None in
  popen_calls (snd (@on_clean_orphans_clicked host_sudo desk (lit "secret") world0)) =
    [(sudo_command, mode_w); (clean_command, mode_r)] /\
  stdin_writes (snd (@on_clean_orphans_clicked host_sudo desk (lit "secret") world0)) =
    [lit "secret" ++ [NL]].
Proof.
  intros desk.
  apply (@clean_runs_after_auth host_sudo desk host_sudo_quiet
           (desk_answering_quiet GTK_RESPONSE_OK None)
           "s" (lit "ecret") world0).
  reflexivity.
Defined.
